(** * BiteTrack [remove_emojis.py]: a shallow embedding and its properties

    The script strips emoji code points from the markdown files of a
    project tree.  Python [str] values are sequences of Unicode code
    points: a text is a [list Z].  The two compiled regular expressions
    of the script are both of the shape "[class]{n,}", so the [re] module
    is modelled by a left-to-right scanner over maximal runs of class
    members.  Files, the directory walk and the two output streams are
    modelled by an explicit world that every operation threads. *)

From Stdlib Require Import ZArith Lia.
From stdpp Require Import base list strings gmap sorting lexico.

Open Scope Z_scope.

Abbreviation text := (list Z).

(** Code points of an ASCII literal, to write examples readably. *)
Fixpoint cp (s : string) : text :=
  match s with
  | EmptyString => []
  | String a r => Z.of_N (Ascii.N_of_ascii a) :: cp r
  end.

(** ** The [re] module, for patterns "[class]{n,}" *)

Module Re.

(** A member of a bracket expression: "a-b" or a single character. *)
Inductive class_item :=
| Range (lo hi : Z)
| Single (c : Z).

Definition item_matches (c : Z) (i : class_item) : bool :=
  match i with
  | Range lo hi => (lo <=? c) && (c <=? hi)
  | Single d => c =? d
  end.

Definition in_class (cls : list class_item) (c : Z) : bool :=
  existsb (item_matches c) cls.

(** The compiled pattern "[cls]{min,}"; [min] is 1 for "+". *)
Record pattern := { p_class : list class_item; p_min : nat }.

Section Scanner.
Variable p : pattern.

(** [run] is the maximal run of class members just read, most recent
    first.  It is a match when it is non-empty and long enough; a
    shorter run holds no match at all, since every suffix of it is
    shorter still. *)
Definition is_match (run : text) : bool :=
  match run with
  | [] => false
  | _ :: _ => (p_min p <=? length run)%nat
  end.

Fixpoint findall_from (run s : text) : list text :=
  match s with
  | [] => if is_match run then [rev run] else []
  | c :: r =>
      if in_class (p_class p) c then findall_from (c :: run) r
      else (if is_match run then [rev run] else []) ++ findall_from [] r
  end.

Fixpoint sub_from (repl run s : text) : text :=
  match s with
  | [] => if is_match run then repl else rev run
  | c :: r =>
      if in_class (p_class p) c then sub_from repl (c :: run) r
      else (if is_match run then repl else rev run)
             ++ c :: sub_from repl [] r
  end.
End Scanner.

(** [pattern.findall(string)] and [pattern.sub(repl, string)]. *)
Definition findall (p : pattern) (s : text) : list text := findall_from p [] s.
Definition sub (p : pattern) (repl s : text) : text := sub_from p repl [] s.

End Re.

(** ** Python [str] methods used by the script *)

Module Str.

Definition NL : Z := 10.
Definition SPACE : Z := 32.

(** [str.isspace] on one code point: the table of
    [_PyUnicode_IsWhitespace]. *)
Definition isspace (c : Z) : bool :=
  ((0x09 <=? c) && (c <=? 0x0D)) || ((0x1C <=? c) && (c <=? 0x1F))
  || (c =? 0x20) || (c =? 0x85) || (c =? 0xA0) || (c =? 0x1680)
  || ((0x2000 <=? c) && (c <=? 0x200A))
  || (c =? 0x2028) || (c =? 0x2029) || (c =? 0x202F) || (c =? 0x205F)
  || (c =? 0x3000).

Fixpoint lstrip (s : text) : text :=
  match s with
  | [] => []
  | c :: r => if isspace c then lstrip r else s
  end.

Definition rstrip (s : text) : text := rev (lstrip (rev s)).

Definition strip (s : text) : text := lstrip (rstrip s).

(** [s.split(sep)] for a one-character separator: never the empty list. *)
Fixpoint split (sep : Z) (s : text) : list text :=
  match s with
  | [] => [[]]
  | c :: r =>
      if c =? sep then [] :: split sep r
      else match split sep r with
           | [] => [[c]]
           | l :: ls => (c :: l) :: ls
           end
  end.

(** [sep.join(lines)]. *)
Fixpoint join (sep : Z) (lines : list text) : text :=
  match lines with
  | [] => []
  | [l] => l
  | l :: ls => l ++ sep :: join sep ls
  end.

(** Truth value of a [str] in a condition. *)
Definition truthy (s : text) : bool :=
  match s with [] => false | _ :: _ => true end.

End Str.

(** ** Text Cleaner *)

Import Re Str.

(** Lines 13-36: the bracket expression, item by item and in source order
    (overlaps and duplicates included), then "+". *)
Definition EMOJI_CLASS : list class_item :=
  [ Range 0x1F1E0 0x1F1FF;
    Range 0x1F300 0x1F5FF;
    Range 0x1F600 0x1F64F;
    Range 0x1F680 0x1F6FF;
    Range 0x1F700 0x1F77F;
    Range 0x1F780 0x1F7FF;
    Range 0x1F800 0x1F8FF;
    Range 0x1F900 0x1F9FF;
    Range 0x1FA00 0x1FA6F;
    Range 0x1FA70 0x1FAFF;
    Range 0x2702 0x27B0;
    Range 0x24C2 0x1F251;
    Range 0x1F300 0x1F5FF;
    Range 0x1F600 0x1F636;
    Range 0x1F681 0x1F6C5;
    Range 0x1F30D 0x1F567;
    Range 0x2600 0x2B55;
    Single 0x200D;
    Single 0xFE0F ].

Definition EMOJI_PATTERN : pattern := {| p_class := EMOJI_CLASS; p_min := 1 |}.

(** Line 64: the pattern of [re.sub(r' {2,}', ' ', content)]. *)
Definition SPACES_PATTERN : pattern :=
  {| p_class := [Single SPACE]; p_min := 2 |}.

Definition in_emoji (c : Z) : bool := in_class EMOJI_CLASS c.

(** Lines 56-66: the body of the loop over lines. *)
Definition normalize_line (line : text) : text :=
  let line := rstrip line in
  if truthy (strip line) then
    let leading_spaces := (length line - length (lstrip line))%nat in
    let content := lstrip line in
    let content := sub SPACES_PATTERN [SPACE] content in
    replicate leading_spaces SPACE ++ content
  else line.

(** Lines 39-68. *)
Definition remove_emojis_from_text (t : text) : text :=
  let cleaned := sub EMOJI_PATTERN [] t in
  join NL (map normalize_line (split NL cleaned)).

(** Lines 87-88: [len(EMOJI_PATTERN.findall(original_content))]. *)
Definition count_matches (t : text) : nat := length (findall EMOJI_PATTERN t).

(** ** The world: files and the trace of observable effects *)

(** A [pathlib.Path] is its tuple of components, [Path.parts]. *)
Abbreviation path := (list string).

Inductive exn :=
| FileNotFoundError
| IsADirectoryError
| PermissionError
| UnicodeDecodeError.

(** What a path names.  The content of a file is [None] when its bytes
    are not valid UTF-8.  Each path names an entry of its own: symbolic
    and hard links are not modelled. *)
Inductive entry :=
| Dir
| File (readable writable : bool) (content : option text).

(** What the script prints on standard output. *)
Inductive message :=
| MsgHeader (project_root : path) (dry_run : bool)
| MsgScanning
| MsgFound (n : nat)
| MsgFile (dry_run : bool) (emoji_count : nat) (rel_path : path)
| MsgSummary (processed changed emojis : nat)
| MsgModified (changed_files : list (path * nat))
| MsgDryRunNote
| MsgSuccess
| MsgNoEmojis
| MsgUsage.

Inductive event :=
| Glob (root_dir : path)
| OpenRead (p : path)
| OpenWrite (p : path)
| Stdout (m : message)
| Stderr (p : path) (e : exn).

Record world := World { files : gmap path entry; events : list event }.

(** Computations that may raise. *)
Definition io (A : Type) : Type := world -> world * (exn + A).

Global Instance io_ret : MRet io := fun A a w => (w, inr a).

Global Instance io_bind : MBind io := fun A B k m w =>
  match m w with
  | (w', inl e) => (w', inl e)
  | (w', inr a) => k a w'
  end.

Definition raise {A} (e : exn) : io A := fun w => (w, inl e).

Definition emit (e : event) : io unit :=
  fun w => (World (files w) (events w ++ [e]), inr tt).

(** [try: body except Exception as e: handler]. *)
Definition try_except {A} (body : io A) (handler : exn -> world -> world * A)
  : world -> world * A :=
  fun w =>
    match body w with
    | (w', inr a) => (w', a)
    | (w', inl e) => handler e w'
    end.

(** [with open(p, 'r', encoding='utf-8') as f: f.read()]. *)
Definition lookup_text (p : path) : io text :=
  fun w =>
    match files w !! p with
    | None => raise FileNotFoundError w
    | Some Dir => raise IsADirectoryError w
    | Some (File false _ _) => raise PermissionError w
    | Some (File true _ None) => raise UnicodeDecodeError w
    | Some (File true _ (Some t)) => (w, inr t)
    end.

Definition read_text (p : path) : io text :=
  emit (OpenRead p) ;; lookup_text p.

(** [with open(p, 'w', encoding='utf-8') as f: f.write(t)]: a full
    replacement of the content, or an error that leaves the file as it was. *)
Definition replace_text (p : path) (t : text) : io unit :=
  fun w =>
    match files w !! p with
    | None =>
        (World (<[p := File true true (Some t)]> (files w)) (events w), inr tt)
    | Some Dir => raise IsADirectoryError w
    | Some (File _ false _) => raise PermissionError w
    | Some (File r true _) =>
        (World (<[p := File r true (Some t)]> (files w)) (events w), inr tt)
    end.

Definition write_text (p : path) (t : text) : io unit :=
  emit (OpenWrite p) ;; replace_text p t.

(** ** File Walker / Reporter *)

(** Lines 71-108. *)
Definition process_markdown_file (file_path : path) (dry_run : bool)
  : world -> world * (bool * nat) :=
  try_except
    (original_content ← read_text file_path;
     let emoji_count := count_matches original_content in
     if (emoji_count =? 0)%nat then mret (false, 0%nat)
     else
       let cleaned_content := remove_emojis_from_text original_content in
       if bool_decide (original_content = cleaned_content)
       then mret (false, 0%nat)
       else
         (if negb dry_run then write_text file_path cleaned_content
          else mret tt) ;;
         mret (true, emoji_count))
    (fun e w => (World (files w) (events w ++ [Stderr file_path e]),
                 (false, 0%nat))).

(** ** File names as Python sees them

    A component of a path is a file name, here the bytes the file system
    holds.  Python works on the [str] that [os.fsdecode] makes of them:
    UTF-8, strictly decoded, with every byte that is not part of a
    well-formed sequence escaped as the lone surrogate U+DC00 + byte
    ([surrogateescape]). *)

Definition continuation (b : Z) : bool := (0x80 <=? b) && (b <=? 0xBF).

Definition utf8_2 (b0 b1 : Z) : option Z :=
  if (0xC2 <=? b0) && (b0 <=? 0xDF) && continuation b1
  then Some ((b0 - 0xC0) * 64 + (b1 - 0x80))
  else None.

Definition utf8_3 (b0 b1 b2 : Z) : option Z :=
  if ((b0 =? 0xE0) && (0xA0 <=? b1) && (b1 <=? 0xBF)
      || (0xE1 <=? b0) && (b0 <=? 0xEC) && continuation b1
      || (b0 =? 0xED) && (0x80 <=? b1) && (b1 <=? 0x9F)
      || (0xEE <=? b0) && (b0 <=? 0xEF) && continuation b1)
     && continuation b2
  then Some ((b0 - 0xE0) * 4096 + (b1 - 0x80) * 64 + (b2 - 0x80))
  else None.

Definition utf8_4 (b0 b1 b2 b3 : Z) : option Z :=
  if ((b0 =? 0xF0) && (0x90 <=? b1) && (b1 <=? 0xBF)
      || (0xF1 <=? b0) && (b0 <=? 0xF3) && continuation b1
      || (b0 =? 0xF4) && (0x80 <=? b1) && (b1 <=? 0x8F))
     && continuation b2 && continuation b3
  then Some ((b0 - 0xF0) * 262144 + (b1 - 0x80) * 4096
             + (b2 - 0x80) * 64 + (b3 - 0x80))
  else None.

Definition surrogateescape (b : Z) : Z := 0xDC00 + b.

(** [os.fsdecode] on the bytes of a name.  After a byte that starts no
    well-formed sequence decoding goes on with the next byte. *)
Fixpoint fsdecode (bs : list Z) : text :=
  match bs with
  | [] => []
  | b0 :: r0 =>
      if b0 <? 0x80 then b0 :: fsdecode r0
      else
        match r0 with
        | [] => surrogateescape b0 :: fsdecode r0
        | b1 :: r1 =>
            match utf8_2 b0 b1 with
            | Some c => c :: fsdecode r1
            | None =>
                match r1 with
                | [] => surrogateescape b0 :: fsdecode r0
                | b2 :: r2 =>
                    match utf8_3 b0 b1 b2 with
                    | Some c => c :: fsdecode r2
                    | None =>
                        match r2 with
                        | [] => surrogateescape b0 :: fsdecode r0
                        | b3 :: r3 =>
                            match utf8_4 b0 b1 b2 b3 with
                            | Some c => c :: fsdecode r3
                            | None => surrogateescape b0 :: fsdecode r0
                            end
                        end
                    end
                end
            end
        end
  end.

(** [os.fsencode], the way back, by which decoding is seen to lose
    nothing. *)
Definition fsencode_cp (c : Z) : list Z :=
  if c <? 0x80 then [c]
  else if c <? 0x800 then [0xC0 + c / 64; 0x80 + c mod 64]
  else if (0xDC80 <=? c) && (c <=? 0xDCFF) then [c - 0xDC00]
  else if c <? 0x10000
       then [0xE0 + c / 4096; 0x80 + (c / 64) mod 64; 0x80 + c mod 64]
  else [0xF0 + c / 262144; 0x80 + (c / 4096) mod 64;
        0x80 + (c / 64) mod 64; 0x80 + c mod 64].

Definition fsencode (cs : text) : list Z := concat (map fsencode_cp cs).

Definition is_byte (b : Z) : Prop := 0 <= b < 256.

(** The name as a [str]. *)
Definition name_str (name : string) : text := fsdecode (cp name).

(** Paths compare as their tuples of components, and components as
    strings do in Python: by code point. *)
Global Instance string_lexico : Lexico string :=
  fun s1 s2 => lexico (name_str s1) (name_str s2).

Lemma cp_inj (s1 s2 : string) : cp s1 = cp s2 -> s1 = s2.
Proof.
  revert s2; induction s1 as [|a s1 IH]; intros [|b s2] E; simpl in E;
    try discriminate; [reflexivity|].
  injection E as Ea Es. f_equal; [|by apply IH].
  apply (inj Z.of_N) in Ea.
  rewrite <- (Ascii.ascii_N_embedding a), <- (Ascii.ascii_N_embedding b).
  by rewrite Ea.
Qed.

Lemma cp_bytes (s : string) : Forall is_byte (cp s).
Proof.
  induction s as [|a s IH]; [constructor|]. constructor; [|done].
  pose proof (Ascii.N_ascii_bounded a). unfold is_byte. lia.
Qed.

Ltac to_props :=
  unfold continuation, is_byte in *;
  rewrite ?andb_true_iff, ?orb_true_iff, ?andb_false_iff, ?orb_false_iff,
    ?Z.leb_le, ?Z.leb_gt, ?Z.ltb_lt, ?Z.ltb_ge, ?Z.eqb_eq, ?Z.eqb_neq in *.

Ltac solve_encode :=
  unfold fsencode_cp;
  repeat match goal with
         | |- context [if ?b then _ else _] => destruct b eqn:?
         end;
  to_props; try lia;
  repeat f_equal; Z.div_mod_to_equations; lia.

Lemma encode_ascii (b : Z) : 0 <= b -> b < 0x80 -> fsencode_cp b = [b].
Proof. intros. solve_encode. Qed.

Lemma encode_escape (b : Z) :
  is_byte b -> 0x80 <= b -> fsencode_cp (surrogateescape b) = [b].
Proof. intros. unfold surrogateescape. solve_encode. Qed.

Lemma encode_utf8_2 (b0 b1 c : Z) :
  utf8_2 b0 b1 = Some c -> fsencode_cp c = [b0; b1].
Proof.
  unfold utf8_2. destruct (_ && _) eqn:E; [|done]. intros [= <-].
  to_props. solve_encode.
Qed.

Lemma encode_utf8_3 (b0 b1 b2 c : Z) :
  utf8_3 b0 b1 b2 = Some c -> fsencode_cp c = [b0; b1; b2].
Proof.
  unfold utf8_3. destruct (_ && _) eqn:E; [|done]. intros [= <-].
  to_props. solve_encode.
Qed.

Lemma encode_utf8_4 (b0 b1 b2 b3 c : Z) :
  utf8_4 b0 b1 b2 b3 = Some c -> fsencode_cp c = [b0; b1; b2; b3].
Proof.
  unfold utf8_4. destruct (_ && _) eqn:E; [|done]. intros [= <-].
  to_props. solve_encode.
Qed.

Lemma fsencode_cons (c : Z) (cs : text) :
  fsencode (c :: cs) = fsencode_cp c ++ fsencode cs.
Proof. done. Qed.

Lemma fsencode_fsdecode_bounded (n : nat) (bs : list Z) :
  (length bs <= n)%nat -> Forall is_byte bs -> fsencode (fsdecode bs) = bs.
Proof.
  revert bs. induction n as [|n IH]; intros bs Hn Hb.
  { destruct bs; [done|]. cbn in Hn. lia. }
  destruct bs as [|b0 r0]; [done|].
  apply Forall_cons in Hb as [Hb0 Hr0]. cbn [length] in Hn.
  assert (fsencode (surrogateescape b0 :: fsdecode r0) = b0 :: r0
          \/ b0 < 0x80) as Hesc.
  { destruct (Z.ltb_spec b0 0x80); [by right|left].
    rewrite fsencode_cons, encode_escape, IH by (done || lia). done. }
  cbn [fsdecode]. destruct (Z.ltb_spec b0 0x80) as [Hlt|Hge].
  { rewrite fsencode_cons, encode_ascii, IH by (done || lia || apply Hb0).
    done. }
  destruct Hesc as [Hesc|?]; [|lia].
  destruct r0 as [|b1 r1]; [done|].
  apply Forall_cons in Hr0 as [Hb1 Hr1]. cbn [length] in Hn.
  destruct (utf8_2 b0 b1) as [c|] eqn:E2.
  { rewrite fsencode_cons, (encode_utf8_2 b0 b1 c), IH by (done || lia). done. }
  destruct r1 as [|b2 r2]; [done|].
  apply Forall_cons in Hr1 as [Hb2 Hr2]. cbn [length] in Hn.
  destruct (utf8_3 b0 b1 b2) as [c|] eqn:E3.
  { rewrite fsencode_cons, (encode_utf8_3 b0 b1 b2 c), IH by (done || lia).
    done. }
  destruct r2 as [|b3 r3]; [done|].
  apply Forall_cons in Hr2 as [Hb3 Hr3]. cbn [length] in Hn.
  destruct (utf8_4 b0 b1 b2 b3) as [c|] eqn:E4; [|done].
  rewrite fsencode_cons, (encode_utf8_4 b0 b1 b2 b3 c), IH by (done || lia).
  done.
Qed.

Lemma fsdecode_inj (bs1 bs2 : list Z) :
  Forall is_byte bs1 -> Forall is_byte bs2 ->
  fsdecode bs1 = fsdecode bs2 -> bs1 = bs2.
Proof.
  intros H1 H2 E.
  rewrite <- (fsencode_fsdecode_bounded (length bs1) bs1),
          <- (fsencode_fsdecode_bounded (length bs2) bs2) by done.
  by rewrite E.
Qed.

Lemma name_str_inj (s1 s2 : string) : name_str s1 = name_str s2 -> s1 = s2.
Proof. intros E. by apply cp_inj, fsdecode_inj; [apply cp_bytes..|]. Qed.

Global Instance string_lexico_po : StrictOrder (@lexico string _).
Proof.
  unfold lexico, string_lexico. split.
  - intros s. apply (irreflexivity lexico (name_str s)).
  - intros s1 s2 s3. apply (transitivity (R := lexico)).
Qed.

Global Instance string_lexico_trichotomy : TrichotomyT (@lexico string _) :=
  fun s1 s2 =>
    match trichotomyT lexico (name_str s1) (name_str s2) with
    | inleft (left H) => inleft (left H)
    | inleft (right H) => inleft (right (name_str_inj s1 s2 H))
    | inright H => inright H
    end.

(** [p <= q] as [sorted] sees it on [Path] objects: not [q < p], where
    [<] compares the tuples of components, component by component. *)
Definition path_le (p q : path) : Prop := ~ lexico q p.

Global Instance path_le_dec : RelDecision path_le.
Proof. intros p q. unfold path_le. apply _. Defined.

(** [fnmatch(name, '*.md')]: the name ends in ".md". *)
Definition is_md (name : string) : bool :=
  bool_decide (String.list_ascii_of_string ".md"
                 `suffix_of` String.list_ascii_of_string name).

(** The paths [root_dir.rglob('*.md')] yields: every entry strictly below
    [root_dir] whose last component matches, in the order the directory
    scan happens to produce. *)
Definition rglob_md (root_dir : path) (w : world) : list path :=
  List.filter
    (fun p => bool_decide (root_dir `prefix_of` p)
              && (length root_dir <? length p)%nat
              && match last p with Some name => is_md name | None => false end)
    (map fst (map_to_list (files w))).

Definition DEFAULT_EXCLUDE : gset string :=
  {[ "node_modules"; ".git"; "dist"; "build"; ".next"; "coverage" ]}.

(** Line 129: [any(excluded in md_file.parts for excluded in exclude_dirs)]. *)
Definition in_excluded_dir (exclude_dirs : gset string) (md_file : path) : bool :=
  existsb (fun excluded => bool_decide (excluded ∈ md_file))
          (elements exclude_dirs).

(** Lines 125-133 on the paths the glob yielded. *)
Definition select_sorted (exclude_dirs : gset string) (globbed : list path)
  : list path :=
  merge_sort path_le
    (List.filter (fun md_file => negb (in_excluded_dir exclude_dirs md_file))
                 globbed).

(** Lines 111-133. *)
Definition find_markdown_files (root_dir : path)
    (exclude_dirs : option (gset string)) (w : world) : world * list path :=
  let exclude_dirs := default DEFAULT_EXCLUDE exclude_dirs in
  (World (files w) (events w ++ [Glob root_dir]),
   select_sorted exclude_dirs (rglob_md root_dir w)).

(** [print(...)] on standard output. *)
Definition print (m : message) (w : world) : world :=
  World (files w) (events w ++ [Stdout m]).

(** [md_file.relative_to(project_root)] for a path the glob of
    [project_root] yielded. *)
Definition relative_to (project_root md_file : path) : path :=
  drop (length project_root) md_file.

(** Lines 158-160: the counters of the run. *)
Record summary := Summary {
  total_changed : nat;
  total_emojis : nat;
  changed_files : list (path * nat)
}.

(** Lines 163-173: one iteration of the loop over the files. *)
Definition process_one (project_root : path) (dry_run verbose : bool)
    (st : world * summary) (md_file : path) : world * summary :=
  let '(w, acc) := st in
  let rel_path := relative_to project_root md_file in
  let '(w, (changed, emoji_count)) :=
    process_markdown_file md_file dry_run w in
  if changed then
    (if verbose then print (MsgFile dry_run emoji_count rel_path) w else w,
     Summary (total_changed acc + 1) (total_emojis acc + emoji_count)
             (changed_files acc ++ [(rel_path, emoji_count)]))
  else (w, acc).

(** Lines 139, 140 and 204: the flags, looked up in [sys.argv]. *)
Definition flag_dry_run (argv : list string) : bool :=
  bool_decide ("--dry-run" ∈ argv) || bool_decide ("-n" ∈ argv).

Definition flag_verbose (argv : list string) : bool :=
  bool_decide ("--verbose" ∈ argv) || bool_decide ("-v" ∈ argv).


(** Lines 136-200; [project_root] is [Path(__file__).parent]. *)
Definition main (argv : list string) (project_root : path) (w : world)
  : world * Z :=
  let dry_run := flag_dry_run argv in
  let verbose := flag_verbose argv in
  let w := print (MsgHeader project_root dry_run) w in
  let w := print MsgScanning w in
  let '(w, markdown_files) := find_markdown_files project_root None w in
  let w := print (MsgFound (length markdown_files)) w in
  let '(w, acc) :=
    fold_left (process_one project_root dry_run verbose) markdown_files
              (w, Summary 0 0 []) in
  let w := print (MsgSummary (length markdown_files) (total_changed acc)
                             (total_emojis acc)) w in
  let w :=
    match changed_files acc with
    | _ :: _ => if negb verbose then print (MsgModified (changed_files acc)) w
                else w
    | [] => w
    end in
  let w :=
    if dry_run && (0 <? total_changed acc)%nat then print MsgDryRunNote w
    else if (0 <? total_changed acc)%nat then print MsgSuccess w
    else print MsgNoEmojis w in
  (w, if (0 <? total_changed acc)%nat then 0 else 1).


(** ** Specification-level notions *)

(** What [re.sub(r' {2,}', ' ', _)] computes, by structural recursion: a
    space followed by a space is dropped. *)
Fixpoint squeeze (s : text) : text :=
  match s with
  | [] => []
  | c :: r =>
      if (c =? SPACE) && match r with d :: _ => d =? SPACE | [] => false end
      then squeeze r
      else c :: squeeze r
  end.

(** Two adjacent plain spaces somewhere in [s]. *)
Fixpoint double_space (s : text) : bool :=
  match s with
  | [] => false
  | c :: r =>
      (c =? SPACE) && match r with d :: _ => d =? SPACE | [] => false end
      || double_space r
  end.

Definition starts_nonspace (s : text) : Prop :=
  match s with c :: _ => isspace c = false | [] => False end.

Definition ends_nonspace (s : text) : Prop :=
  match last s with Some c => isspace c = false | None => False end.

(** The decomposition of a text into its emoji runs, in the words of the
    specification: [runs] are the maximal contiguous non-empty runs of
    code points of the Emoji Range Set, in order.  Each run is preceded by
    a gap of other code points and followed by the end of the text or by
    another code point that is not in the set. *)
Inductive maximal_runs : text -> list text -> Prop :=
| runs_none (s : text) :
    Forall (fun c => in_emoji c = false) s -> maximal_runs s []
| runs_cons (gap run rest : text) (runs : list text) :
    Forall (fun c => in_emoji c = false) gap ->
    run <> [] ->
    Forall (fun c => in_emoji c = true) run ->
    match rest with c :: _ => in_emoji c = false | [] => True end ->
    maximal_runs rest runs ->
    maximal_runs (gap ++ run ++ rest) (run :: runs).

(** The edits the cleaner may perform on a text: keep a code point, delete
    one that is in the Emoji Range Set or is whitespace other than the
    line separator, or put one plain space in the place of one such
    whitespace code point. *)
Inductive cleaning_edit : text -> text -> Prop :=
| edit_nil : cleaning_edit [] []
| edit_keep (c : Z) (s t : text) :
    cleaning_edit s t -> cleaning_edit (c :: s) (c :: t)
| edit_delete (c : Z) (s t : text) :
    in_emoji c = true \/ (isspace c = true /\ c <> NL) ->
    cleaning_edit s t -> cleaning_edit (c :: s) t
| edit_respace (c : Z) (s t : text) :
    isspace c = true -> c <> NL ->
    cleaning_edit s t -> cleaning_edit (c :: s) (SPACE :: t).

(** [squeezed s t]: [t] is [s] with some plain spaces dropped, each one
    directly in front of another plain space; nothing else changes. *)
Inductive squeezed : text -> text -> Prop :=
| squeezed_nil : squeezed [] []
| squeezed_keep (c : Z) (s t : text) :
    squeezed s t -> squeezed (c :: s) (c :: t)
| squeezed_drop (s t : text) :
    squeezed (SPACE :: s) t -> squeezed (SPACE :: SPACE :: s) t.

(** What the normalization pass does to one line.  A line of whitespace
    only becomes empty.  Any other line is indentation, body and trailing
    whitespace: the trailing whitespace goes, the body loses the surplus
    spaces of its runs of spaces and nothing else, and there is one plain
    space for each code point of the indentation. *)
Inductive line_rewrite : text -> text -> Prop :=
| rewrite_blank (l : text) :
    Forall (fun c => isspace c = true) l -> line_rewrite l []
| rewrite_content (ind body trail body' : text) :
    Forall (fun c => isspace c = true) ind ->
    Forall (fun c => isspace c = true) trail ->
    starts_nonspace body -> ends_nonspace body ->
    squeezed body body' -> double_space body' = false ->
    line_rewrite (ind ++ body ++ trail)
                 (replicate (length ind) SPACE ++ body').

(** What the normalization pass does to one line by design.  A line of
    whitespace only becomes empty.  Any other line is indentation, body
    and trailing whitespace: the trailing whitespace goes, the body keeps
    everything but the surplus spaces of its runs of spaces, and
    indentation made of plain spaces stays as it is.  Of any other
    indentation only its length and its being whitespace is recorded. *)
Inductive line_frame : text -> text -> Prop :=
| frame_blank (l : text) :
    Forall (fun c => isspace c = true) l -> line_frame l []
| frame_content (ind body trail ind' body' : text) :
    Forall (fun c => isspace c = true) ind ->
    Forall (fun c => isspace c = true) trail ->
    starts_nonspace body -> ends_nonspace body ->
    squeezed body body' -> double_space body' = false ->
    length ind' = length ind ->
    Forall (fun c => isspace c = true) ind' ->
    (Forall (fun c => c = SPACE) ind -> ind' = ind) ->
    line_frame (ind ++ body ++ trail) (ind' ++ body').

(** The file format contract read literally: once the emoji runs are
    deleted, the only change is that runs of plain spaces are collapsed. *)
Definition preserved_as_claimed (t t' : text) : Prop :=
  squeezed (List.filter (fun c => negb (in_emoji c)) t) t'.

(** The lines of the result, before they are joined. *)
Definition cleaned_lines (t : text) : list text :=
  map normalize_line (split NL (sub EMOJI_PATTERN [] t)).

(** The files a trace opened for reading, in order. *)
Definition reads_of (evs : list event) : list path :=
  omap (fun e => match e with OpenRead p => Some p | _ => None end) evs.

(** The outcome of reading [p], which only depends on the files. *)
Definition read_outcome (p : path) (w : world) : exn + text :=
  (lookup_text p w).2.

(** The outcome of replacing the content of [p] by [t]. *)
Definition write_outcome (p : path) (t : text) (w : world) : exn + unit :=
  (replace_text p t w).2.

(** A project with one markdown file that holds a party popper and one
    that does not, for the examples. *)
Definition party : text := cp "Done " ++ [0x1F389].

Definition example_world (writable : bool) : world :=
  World (<[ ["proj"; "README.md"] := File true writable (Some party) ]>
           (<[ ["proj"; "docs"; "plain.md"] := File true true (Some (cp "plain")) ]>
              (<[ ["proj"; "docs"] := Dir ]> ∅)))
        [].

(** The world in which the loop of [main] starts. *)
Definition loop_entry (argv : list string) (project_root : path) (w : world)
  : world :=
  print (MsgFound (length (find_markdown_files project_root None w).2))
    (find_markdown_files project_root None
       (print MsgScanning
          (print (MsgHeader project_root (flag_dry_run argv)) w))).1.

(** A project in which nothing can be read. *)
Definition broken_world : world :=
  World (<[ ["proj"; "a.md"] := Dir ]>
           (<[ ["proj"; "b.md"] := File false true (Some party) ]> ∅))
        [].

(** The standard output of a trace, and the files it opened for writing. *)
Definition stdout_of (evs : list event) : list message :=
  omap (fun e => match e with Stdout m => Some m | _ => None end) evs.

Definition writes_of (evs : list event) : list path :=
  omap (fun e => match e with OpenWrite p => Some p | _ => None end) evs.

(** A line the normalization pass leaves as it is: empty, or some plain
    spaces and then a body that neither starts nor ends with whitespace
    and has no two adjacent spaces. *)
Definition clean_line (l : text) : Prop :=
  l = [] \/ exists n body,
              l = replicate n SPACE ++ body
              /\ starts_nonspace body /\ ends_nonspace body
              /\ double_space body = false.

(** The counters of the run when the loop of [main] ends. *)
Definition run_summary (argv : list string) (project_root : path) (w : world)
  : summary :=
  (fold_left
     (process_one project_root (flag_dry_run argv) (flag_verbose argv))
     (find_markdown_files project_root None w).2
     (loop_entry argv project_root w, Summary 0 0 [])).2.

(** Lines 190-198: the closing line of the report. *)
Definition closing_message (dry_run : bool) (changed : nat) : message :=
  if dry_run && (0 <? changed)%nat then MsgDryRunNote
  else if (0 <? changed)%nat then MsgSuccess
  else MsgNoEmojis.

(** What the run records about one file: nothing, or its path relative
    to the root and its count, when the call reports a change. *)
Definition file_report (project_root : path) (dry_run : bool) (w : world)
    (p : path) : option (path * nat) :=
  let r := (process_markdown_file p dry_run w).2 in
  if r.1 then Some (relative_to project_root p, r.2) else None.

(** Lines 185-188: the consolidated list, printed unless verbose. *)
Definition consolidated (verbose : bool) (changed_files : list (path * nat))
  : list message :=
  match changed_files with
  | _ :: _ => if negb verbose then [MsgModified changed_files] else []
  | [] => []
  end.



(** A project with two sibling directories whose names differ by a
    hyphen, a vendored package and a directory whose name ends in ".md". *)
Definition tree_world : world :=
  World (<[ ["proj"; "a"; "b.md"] := File true true (Some party) ]>
           (<[ ["proj"; "a-b"; "c.md"] := File true true (Some party) ]>
              (<[ ["proj"; "node_modules"; "pkg"; "README.md"]
                  := File true true (Some party) ]>
                 (<[ ["proj"; "notes.md"] := Dir ]> ∅))))
        [].

(** * Properties of the Text Cleaner *)

(** ** The scanner on the two patterns of the script *)

Lemma sub_emoji_from (run s : text) :
  sub_from EMOJI_PATTERN [] run s = List.filter (fun c => negb (in_emoji c)) s.
Proof.
  revert run; induction s as [|c r IH]; intros run;
    cbn [sub_from List.filter].
  - by destruct run.
  - change (in_class (p_class EMOJI_PATTERN) c) with (in_emoji c).
    destruct (in_emoji c); cbn [negb]; [apply IH|].
    rewrite IH. by destruct run.
Qed.

Lemma sub_emoji (s : text) :
  sub EMOJI_PATTERN [] s = List.filter (fun c => negb (in_emoji c)) s.
Proof. apply sub_emoji_from. Qed.

Lemma findall_emoji_free (s : text) :
  Forall (fun c => in_emoji c = false) s -> findall EMOJI_PATTERN s = [].
Proof.
  unfold findall. induction 1 as [|c r Hc _ IH]; cbn [findall_from]; [done|].
  change (in_class (p_class EMOJI_PATTERN) c) with (in_emoji c).
  by rewrite Hc.
Qed.

Lemma space_class (c : Z) : in_class (p_class SPACES_PATTERN) c = (c =? SPACE).
Proof. simpl. apply orb_false_r. Qed.

Lemma squeeze_after_spaces (n : nat) (c : Z) (r : text) :
  c <> SPACE ->
  squeeze (replicate n SPACE ++ c :: r)
  = match n with O => [] | S _ => [SPACE] end ++ c :: squeeze r.
Proof.
  intros Hc. apply Z.eqb_neq in Hc.
  induction n as [|[|n] IH].
  - simpl. by rewrite Hc.
  - simpl. by rewrite Hc.
  - change (replicate (S (S n)) SPACE ++ c :: r)
      with (SPACE :: SPACE :: replicate n SPACE ++ c :: r).
    change (squeeze (SPACE :: SPACE :: replicate n SPACE ++ c :: r))
      with (squeeze (replicate (S n) SPACE ++ c :: r)).
    apply IH.
Qed.

Lemma squeeze_spaces (n : nat) :
  squeeze (replicate n SPACE) = match n with O => [] | S _ => [SPACE] end.
Proof. induction n as [|[|n] IH]; try done. Qed.

Lemma flush_spaces (n : nat) :
  (if is_match SPACES_PATTERN (replicate n SPACE) then [SPACE]
   else rev (replicate n SPACE))
  = match n with O => [] | S _ => [SPACE] end.
Proof. by destruct n as [|[|n]]. Qed.

Lemma sub_spaces_from (n : nat) (s : text) :
  sub_from SPACES_PATTERN [SPACE] (replicate n SPACE) s
  = squeeze (replicate n SPACE ++ s).
Proof.
  revert n; induction s as [|c r IH]; intros n.
  - cbn [sub_from]. rewrite app_nil_r, squeeze_spaces. apply flush_spaces.
  - cbn [sub_from]. rewrite space_class.
    destruct (Z.eqb_spec c SPACE) as [->|Hc].
    + change (SPACE :: replicate n SPACE) with (replicate (S n) SPACE).
      rewrite (IH (S n)). f_equal.
      rewrite replicate_S_end, <- app_assoc. done.
    + rewrite flush_spaces, squeeze_after_spaces by done.
      do 2 f_equal. apply (IH O).
Qed.

Lemma sub_spaces (s : text) : sub SPACES_PATTERN [SPACE] s = squeeze s.
Proof. apply (sub_spaces_from 0). Qed.

(** ** Collapsing runs of spaces *)

Lemma head_squeeze (s : text) : head (squeeze s) = head s.
Proof.
  induction s as [|c r IH]; [done|]. cbn [squeeze].
  destruct (Z.eqb_spec c SPACE) as [->|Hc]; [|done].
  destruct r as [|d r']; [done|].
  destruct (Z.eqb_spec d SPACE) as [->|Hd]; [|done].
  cbn [andb]. rewrite IH. done.
Qed.

Lemma squeeze_no_double (s : text) : double_space (squeeze s) = false.
Proof.
  induction s as [|c r IH]; [done|]. cbn [squeeze].
  destruct ((c =? SPACE) && match r with d :: _ => d =? SPACE | [] => false end)
    eqn:E; [done|].
  cbn [double_space]. rewrite IH, orb_false_r.
  pose proof (head_squeeze r) as Hh.
  destruct (squeeze r) as [|d' q], r as [|d r']; simplify_eq/=; done.
Qed.

Lemma squeeze_fixed (s : text) : double_space s = false -> squeeze s = s.
Proof.
  induction s as [|c r IH]; [done|]. cbn [double_space squeeze].
  intros [-> Hr]%orb_false_elim. by rewrite IH.
Qed.

Lemma squeeze_idem (s : text) : squeeze (squeeze s) = squeeze s.
Proof. apply squeeze_fixed, squeeze_no_double. Qed.


Lemma squeeze_Forall (P : Z -> Prop) (s : text) :
  Forall P s -> Forall P (squeeze s).
Proof.
  induction 1 as [|c r Hc _ IH]; [done|]. cbn [squeeze].
  destruct (_ && _); [done|by constructor].
Qed.

Lemma squeeze_snoc (s : text) (c : Z) :
  c <> SPACE -> squeeze (s ++ [c]) = squeeze s ++ [c].
Proof.
  intros Hc. apply Z.eqb_neq in Hc.
  induction s as [|a r IH]; simpl.
  - by rewrite andb_false_r.
  - rewrite IH. destruct r as [|d r']; simpl; [|by destruct (_ && _)].
    by rewrite Hc, !andb_false_r.
Qed.

Lemma findall_spaces_none (s : text) :
  double_space s = false -> findall SPACES_PATTERN s = [].
Proof.
  unfold findall.
  enough ((double_space s = false -> findall_from SPACES_PATTERN [] s = [])
          /\ (double_space (SPACE :: s) = false ->
              findall_from SPACES_PATTERN [SPACE] s = [])) by tauto.
  induction s as [|c r [IH0 IH1]]; [done|].
  cbn [findall_from]. rewrite space_class. split.
  - intros H. destruct (Z.eqb_spec c SPACE) as [->|Hc]; [by apply IH1|].
    apply IH0. cbn [double_space] in H. by apply orb_false_elim in H as [_ ?].
  - intros H. cbn [double_space] in H.
    apply orb_false_elim in H as [Hc H]. cbn in Hc. rewrite Hc.
    apply IH0. by apply orb_false_elim in H as [_ ?].
Qed.

(** ** [lstrip], [rstrip] and [strip] *)


Lemma nonspace_not_SPACE (c : Z) : isspace c = false -> c <> SPACE.
Proof. by intros H ->. Qed.

Lemma lstrip_decomp (s : text) :
  exists ind, s = ind ++ lstrip s /\ Forall (fun c => isspace c = true) ind
              /\ (lstrip s = [] \/ starts_nonspace (lstrip s)).
Proof.
  induction s as [|c r (ind & E & Hind & Hs)]; [by exists []; auto|].
  cbn [lstrip]. destruct (isspace c) eqn:Hc.
  - exists (c :: ind). split; [by rewrite E at 1|]. split; [by constructor|done].
  - exists []. split; [done|]. split; [done|]. by right.
Qed.

Lemma lstrip_fixed (s : text) : starts_nonspace s -> lstrip s = s.
Proof. destruct s as [|c r]; [done|]. simpl. by intros ->. Qed.

Lemma lstrip_spaces_app (ind s : text) :
  Forall (fun c => isspace c = true) ind -> lstrip (ind ++ s) = lstrip s.
Proof. induction 1 as [|c r Hc _ IH]; [done|]. simpl. by rewrite Hc. Qed.

Lemma lstrip_snoc (s : text) (c : Z) :
  isspace c = false -> lstrip (s ++ [c]) = lstrip s ++ [c].
Proof.
  intros Hc. induction s as [|a r IH]; simpl; [by rewrite Hc|].
  by destruct (isspace a).
Qed.

Lemma ends_nonspace_snoc (s : text) (c : Z) :
  ends_nonspace (s ++ [c]) <-> isspace c = false.
Proof. unfold ends_nonspace. by rewrite last_snoc. Qed.

Lemma ends_nonspace_inv (s : text) :
  ends_nonspace s -> exists x c, s = x ++ [c] /\ isspace c = false.
Proof.
  unfold ends_nonspace. destruct (last s) as [c|] eqn:E; [|done].
  apply last_Some in E as [x ->]. eauto.
Qed.

Lemma rstrip_fixed (s : text) : ends_nonspace s -> rstrip s = s.
Proof.
  intros (x & c & -> & Hc)%ends_nonspace_inv. unfold rstrip.
  rewrite rev_app_distr. simpl. rewrite Hc. simpl.
  by rewrite rev_involutive.
Qed.

Lemma rstrip_decomp (s : text) :
  exists trail, s = rstrip s ++ trail
                /\ Forall (fun c => isspace c = true) trail
                /\ (rstrip s = [] \/ ends_nonspace (rstrip s)).
Proof.
  destruct (lstrip_decomp (rev s)) as (ind & E & Hind & Hs).
  exists (rev ind). unfold rstrip. split; [|split].
  - rewrite <- rev_app_distr, <- E. by rewrite rev_involutive.
  - by apply List.Forall_rev.
  - destruct Hs as [->|Hs]; [by left|right].
    destruct (lstrip (rev s)) as [|c r]; [done|]. simpl.
    by apply ends_nonspace_snoc.
Qed.

Lemma ends_nonspace_app (x s : text) : ends_nonspace s -> ends_nonspace (x ++ s).
Proof.
  intros (y & c & -> & Hc)%ends_nonspace_inv.
  rewrite app_assoc. by apply ends_nonspace_snoc.
Qed.

Lemma starts_nonspace_squeeze (s : text) :
  starts_nonspace s -> starts_nonspace (squeeze s).
Proof.
  intros H. pose proof (head_squeeze s) as Hh.
  destruct s as [|c r]; [done|]. destruct (squeeze (c :: r)); by simplify_eq/=.
Qed.

Lemma ends_nonspace_squeeze (s : text) :
  ends_nonspace s -> ends_nonspace (squeeze s).
Proof.
  intros (x & c & -> & Hc)%ends_nonspace_inv.
  rewrite squeeze_snoc by by apply nonspace_not_SPACE.
  by apply ends_nonspace_snoc.
Qed.

(** ** One line of the normalization pass *)

Lemma normalize_line_blank (l : text) : rstrip l = [] -> normalize_line l = [].
Proof. intros H. unfold normalize_line. by rewrite H. Qed.

Lemma normalize_line_content (l ind body : text) :
  rstrip l = ind ++ body ->
  Forall (fun c => isspace c = true) ind ->
  starts_nonspace body -> ends_nonspace body ->
  normalize_line l = replicate (length ind) SPACE ++ squeeze body.
Proof.
  intros E Hind Hs He. unfold normalize_line, strip. rewrite E.
  rewrite (rstrip_fixed (ind ++ body)) by by apply ends_nonspace_app.
  rewrite lstrip_spaces_app, lstrip_fixed by done.
  destruct body as [|c r]; [done|]. cbn [truthy].
  rewrite sub_spaces, length_app. f_equal. f_equal. lia.
Qed.

(** Every line is indentation, body and trailing whitespace; the body is
    empty exactly on a blank line. *)
Lemma normalize_line_cases (l : text) :
  (rstrip l = [] /\ Forall (fun c => isspace c = true) l
   /\ normalize_line l = [])
  \/ exists ind body trail,
       l = ind ++ body ++ trail
       /\ Forall (fun c => isspace c = true) ind
       /\ Forall (fun c => isspace c = true) trail
       /\ starts_nonspace body /\ ends_nonspace body
       /\ normalize_line l = replicate (length ind) SPACE ++ squeeze body.
Proof.
  destruct (rstrip_decomp l) as (trail & El & Htrail & [Hr|Hr]).
  - left. split; [done|]. split; [|by apply normalize_line_blank].
    rewrite El, Hr. done.
  - right. destruct (lstrip_decomp (rstrip l)) as (ind & Er & Hind & Hb).
    assert (starts_nonspace (lstrip (rstrip l))
            /\ ends_nonspace (lstrip (rstrip l))) as [Hs He].
    { destruct (ends_nonspace_inv _ Hr) as (x & c & Ex & Hc).
      rewrite Ex, lstrip_snoc in * by done.
      split; [|by apply ends_nonspace_snoc].
      destruct Hb as [Hb|Hb]; [by destruct (lstrip x)|done]. }
    exists ind, (lstrip (rstrip l)), trail. repeat split; try done.
    + rewrite app_assoc, <- Er. done.
    + by apply normalize_line_content.
Qed.

Lemma normalize_line_Forall (P : Z -> Prop) (l : text) :
  P SPACE -> Forall P l -> Forall P (normalize_line l).
Proof.
  intros Hsp Hl.
  destruct (normalize_line_cases l)
    as [(_ & _ & ->)|(ind & body & trail & -> & _ & _ & _ & _ & ->)]; [done|].
  apply Forall_app in Hl as [_ [Hb _]%Forall_app].
  apply Forall_app. split; [by apply Forall_replicate|by apply squeeze_Forall].
Qed.

Lemma normalize_line_idem (l : text) :
  normalize_line (normalize_line l) = normalize_line l.
Proof.
  destruct (normalize_line_cases l)
    as [(_ & _ & ->)|(ind & body & trail & _ & _ & _ & Hs & He & ->)]; [done|].
  rewrite (normalize_line_content _ (replicate (length ind) SPACE) (squeeze body)).
  - by rewrite length_replicate, squeeze_idem.
  - apply rstrip_fixed, ends_nonspace_app, ends_nonspace_squeeze, He.
  - by apply Forall_replicate.
  - by apply starts_nonspace_squeeze.
  - by apply ends_nonspace_squeeze.
Qed.


(** ** [split] and [join] *)

Lemma split_nonempty (sep : Z) (s : text) : split sep s <> [].
Proof. destruct s as [|c r]; simpl; [done|]. by destruct (c =? sep), (split sep r). Qed.

Lemma join_split (sep : Z) (s : text) : join sep (split sep s) = s.
Proof.
  induction s as [|c r IH]; [done|]. cbn [split].
  pose proof (split_nonempty sep r) as Hne.
  destruct (Z.eqb_spec c sep) as [->|Hc].
  - destruct (split sep r) as [|l ls] eqn:E; [done|].
    change (join sep ([] :: l :: ls)) with (sep :: join sep (l :: ls)).
    by rewrite IH.
  - destruct (split sep r) as [|l ls] eqn:E; [done|].
    rewrite <- IH. by destruct ls.
Qed.

Lemma split_no_sep (sep : Z) (s : text) :
  Forall (Forall (fun c => c <> sep)) (split sep s).
Proof.
  induction s as [|c r IH]; cbn [split]; [by repeat constructor|].
  destruct (Z.eqb_spec c sep) as [->|Hc]; [by constructor|].
  destruct (split sep r) as [|l ls]; [by repeat constructor|].
  apply Forall_cons in IH as [Hl Hls]. by repeat constructor.
Qed.

Lemma split_line (sep : Z) (l : text) :
  Forall (fun c => c <> sep) l -> split sep l = [l].
Proof.
  induction 1 as [|c r Hc _ IH]; [done|]. cbn [split].
  apply Z.eqb_neq in Hc. by rewrite Hc, IH.
Qed.

Lemma split_line_app (sep : Z) (l rest : text) :
  Forall (fun c => c <> sep) l ->
  split sep (l ++ sep :: rest) = l :: split sep rest.
Proof.
  induction 1 as [|c r Hc _ IH]; simpl.
  - by rewrite Z.eqb_refl.
  - apply Z.eqb_neq in Hc. by rewrite Hc, IH.
Qed.

Lemma split_join (sep : Z) (ls : list text) :
  ls <> [] -> Forall (Forall (fun c => c <> sep)) ls ->
  split sep (join sep ls) = ls.
Proof.
  intros Hne Hls. induction Hls as [|l ls Hl Hls IH]; [done|].
  destruct ls as [|l' ls']; [by apply split_line|].
  change (join sep (l :: l' :: ls')) with (l ++ sep :: join sep (l' :: ls')).
  rewrite split_line_app by done. by rewrite IH.
Qed.

(** ** The whole text *)

Lemma filter_fixed (f : Z -> bool) (s : text) :
  Forall (fun c => f c = true) s -> List.filter f s = s.
Proof. induction 1 as [|c r Hc _ IH]; simpl; [done|]. by rewrite Hc, IH. Qed.


Lemma split_Forall (P : Z -> Prop) (sep : Z) (s : text) :
  Forall P s -> Forall (Forall P) (split sep s).
Proof.
  induction 1 as [|c r Hc _ IH]; cbn [split]; [by repeat constructor|].
  destruct (c =? sep); [by repeat constructor|].
  destruct (split sep r) as [|l ls]; [by repeat constructor|].
  apply Forall_cons in IH as [Hl Hls]. by repeat constructor.
Qed.

Lemma join_Forall (P : Z -> Prop) (sep : Z) (ls : list text) :
  P sep -> Forall (Forall P) ls -> Forall P (join sep ls).
Proof.
  intros Hsep. induction 1 as [|l ls Hl _ IH]; [done|].
  destruct ls as [|l' ls']; [done|].
  change (join sep (l :: l' :: ls')) with (l ++ sep :: join sep (l' :: ls')).
  apply Forall_app. split; [done|]. by constructor.
Qed.

Lemma cleaned_lines_nonempty (t : text) : cleaned_lines t <> [].
Proof.
  unfold cleaned_lines. pose proof (split_nonempty NL (sub EMOJI_PATTERN [] t)).
  by destruct (split _ _).
Qed.

Lemma cleaned_lines_Forall (P : Z -> Prop) (t : text) :
  P SPACE -> (forall c, in_emoji c = false -> List.In c t -> P c) ->
  Forall (Forall P) (cleaned_lines t).
Proof.
  intros Hsp HP. unfold cleaned_lines. apply Forall_map.
  eapply Forall_impl.
  - apply (split_Forall P). rewrite sub_emoji. apply List.Forall_forall.
    intros c [Hin Hc%negb_true_iff]%List.filter_In. by apply HP.
  - intros l Hl. by apply normalize_line_Forall.
Qed.

Lemma split_cleaned (t : text) :
  split NL (remove_emojis_from_text t) = cleaned_lines t.
Proof.
  apply split_join; [apply cleaned_lines_nonempty|].
  unfold cleaned_lines. apply Forall_map.
  eapply Forall_impl; [apply split_no_sep|].
  intros l Hl. by apply normalize_line_Forall.
Qed.

Lemma cleaned_emoji_free (t : text) :
  Forall (fun c => in_emoji c = false) (remove_emojis_from_text t).
Proof.
  apply join_Forall; [done|]. by apply cleaned_lines_Forall.
Qed.

Lemma cleaned_line_spaces (t : text) :
  Forall (fun line => double_space (lstrip line) = false) (cleaned_lines t).
Proof.
  unfold cleaned_lines. apply Forall_map, Forall_true. intros l. cbn.
  destruct (normalize_line_cases l)
    as [(_ & _ & ->)|(ind & body & trail & _ & _ & _ & Hs & _ & ->)]; [done|].
  rewrite lstrip_spaces_app by by apply Forall_replicate.
  rewrite lstrip_fixed by by apply starts_nonspace_squeeze.
  apply squeeze_no_double.
Qed.

(** C1. [remove_emojis_from_text] is idempotent; its result holds no match
    of the emoji pattern, and in no line of it does the content after the
    indentation hold a match of the pattern of two or more spaces. *)
Theorem strip_emojis_idempotent (t : text) :
  remove_emojis_from_text (remove_emojis_from_text t)
  = remove_emojis_from_text t
  /\ count_matches (remove_emojis_from_text t) = 0%nat
  /\ Forall (fun line => findall SPACES_PATTERN (lstrip line) = []
                         /\ sub SPACES_PATTERN [SPACE] (lstrip line)
                            = lstrip line)
            (split NL (remove_emojis_from_text t)).
Proof.
  split; [|split].
  - unfold remove_emojis_from_text at 1.
    rewrite sub_emoji, filter_fixed.
    + rewrite split_cleaned. unfold remove_emojis_from_text, cleaned_lines.
      f_equal. rewrite <- list_fmap_compose. apply list_fmap_ext.
      intros _ l _. apply normalize_line_idem.
    + eapply Forall_impl; [apply cleaned_emoji_free|].
      intros c Hc. by rewrite Hc.
  - unfold count_matches. by rewrite findall_emoji_free by apply cleaned_emoji_free.
  - rewrite split_cleaned. eapply Forall_impl; [apply cleaned_line_spaces|].
    intros l Hl. cbn in Hl. split; [by apply findall_spaces_none|].
    rewrite sub_spaces. by apply squeeze_fixed.
Qed.

(** ** Counting: [findall] returns the maximal runs *)

Lemma emoji_is_match (run : text) : run <> [] -> is_match EMOJI_PATTERN run = true.
Proof. by destruct run. Qed.

Lemma findall_gap (gap s : text) :
  Forall (fun c => in_emoji c = false) gap ->
  findall_from EMOJI_PATTERN [] (gap ++ s) = findall_from EMOJI_PATTERN [] s.
Proof.
  induction 1 as [|c r Hc _ IH]; [done|].
  cbn [app findall_from].
  change (in_class (p_class EMOJI_PATTERN) c) with (in_emoji c).
  by rewrite Hc.
Qed.

Lemma findall_run (acc run rest : text) :
  Forall (fun c => in_emoji c = true) run ->
  findall_from EMOJI_PATTERN acc (run ++ rest)
  = findall_from EMOJI_PATTERN (rev run ++ acc) rest.
Proof.
  intros H. revert acc. induction H as [|c r Hc _ IH]; intros acc; [done|].
  cbn [app findall_from].
  change (in_class (p_class EMOJI_PATTERN) c) with (in_emoji c).
  rewrite Hc, IH. simpl. by rewrite <- app_assoc.
Qed.

Lemma findall_flush (acc rest : text) :
  acc <> [] ->
  match rest with c :: _ => in_emoji c = false | [] => True end ->
  findall_from EMOJI_PATTERN acc rest
  = rev acc :: findall_from EMOJI_PATTERN [] rest.
Proof.
  intros Hacc Hrest. destruct rest as [|c r]; cbn [findall_from].
  - by rewrite emoji_is_match.
  - change (in_class (p_class EMOJI_PATTERN) c) with (in_emoji c).
    by rewrite Hrest, emoji_is_match.
Qed.

Lemma maximal_runs_unique (s : text) (runs : list text) :
  maximal_runs s runs -> findall EMOJI_PATTERN s = runs.
Proof.
  induction 1 as [s Hs|gap run rest runs Hgap Hne Hrun Hrest _ IH].
  - by apply findall_emoji_free.
  - unfold findall in *.
    rewrite findall_gap, findall_run, app_nil_r by done.
    rewrite findall_flush, rev_involutive, IH; [done| |done].
    intros E. apply (f_equal (@rev Z)) in E.
    by rewrite rev_involutive in E.
Qed.

Lemma maximal_runs_gap (c : Z) (s : text) (runs : list text) :
  in_emoji c = false -> maximal_runs s runs -> maximal_runs (c :: s) runs.
Proof.
  intros Hc [s' Hs|gap run rest runs' Hgap Hne Hrun Hrest Hruns].
  - apply runs_none. by constructor.
  - apply (runs_cons (c :: gap)); try done. by constructor.
Qed.

Lemma findall_from_runs (acc s : text) :
  Forall (fun c => in_emoji c = true) acc ->
  maximal_runs (rev acc ++ s) (findall_from EMOJI_PATTERN acc s).
Proof.
  revert acc. induction s as [|c r IH]; intros acc Hacc; cbn [findall_from].
  - destruct acc as [|a acc']; [by apply runs_none|].
    rewrite emoji_is_match by done.
    rewrite <- (app_nil_l (rev (a :: acc') ++ [])).
    apply runs_cons; try done.
    + intros E. apply (f_equal (@length Z)) in E.
      rewrite length_rev in E. done.
    + by apply List.Forall_rev.
    + by apply runs_none.
  - change (in_class (p_class EMOJI_PATTERN) c) with (in_emoji c).
    destruct (in_emoji c) eqn:Hc.
    + replace (rev acc ++ c :: r) with (rev (c :: acc) ++ r)
        by (simpl; by rewrite <- app_assoc).
      apply IH. by constructor.
    + specialize (IH [] (List.Forall_nil _)). cbn [rev app] in IH.
      destruct acc as [|a acc'].
      * cbn [is_match rev app]. by apply maximal_runs_gap.
      * rewrite emoji_is_match by done.
        rewrite <- (app_nil_l (rev (a :: acc') ++ c :: r)).
        apply runs_cons; try done.
        -- intros E. apply (f_equal (@length Z)) in E.
           rewrite length_rev in E. done.
        -- by apply List.Forall_rev.
        -- by apply maximal_runs_gap.
Qed.

(** C3. [count_matches] is the number of maximal runs of code points of
    the Emoji Range Set, not the number of such code points: the matches
    [findall] returns are the decomposition of the text into its maximal
    runs, which is unique.  The empty text has none; in "Hello <party
    popper>  World" there is one, and the cleaner returns "Hello World". *)
Theorem count_matches_counts_runs :
  (forall s : text, maximal_runs s (findall EMOJI_PATTERN s))
  /\ (forall (s : text) (runs : list text),
        maximal_runs s runs -> count_matches s = length runs)
  /\ count_matches [] = 0%nat
  /\ count_matches [0x1F389; 0x200D; 0x1F389] = 1%nat
  /\ count_matches (cp "Hello " ++ [0x1F389] ++ cp "  World") = 1%nat
  /\ remove_emojis_from_text (cp "Hello " ++ [0x1F389] ++ cp "  World")
     = cp "Hello World".
Proof.
  split; [|split; [|by repeat split]].
  - intros s. apply (findall_from_runs [] s). constructor.
  - intros s runs H. unfold count_matches. by rewrite (maximal_runs_unique s runs).
Qed.

Lemma count_matches_counts_runs_witness :
  maximal_runs (cp "ab" ++ [0x1F389; 0x1F38A] ++ cp "c") [[0x1F389; 0x1F38A]]
  /\ count_matches (cp "ab" ++ [0x1F389; 0x1F38A] ++ cp "c") = 1%nat.
Proof.
  assert (maximal_runs (cp "ab" ++ [0x1F389; 0x1F38A] ++ cp "c")
                       [[0x1F389; 0x1F38A]]) as H.
  { apply runs_cons.
    - repeat constructor.
    - discriminate.
    - repeat constructor.
    - reflexivity.
    - apply runs_none. repeat constructor. }
  split; [exact H|].
  exact (proj1 (proj2 count_matches_counts_runs) _ _ H).
Defined.

(** ** The cleaner only deletes, or puts a space for a whitespace *)


Lemma edit_app (a a' b b' : text) :
  cleaning_edit a a' -> cleaning_edit b b' -> cleaning_edit (a ++ b) (a' ++ b').
Proof. induction 1; intros Hb; simpl; [done|by constructor; auto..]. Qed.

Lemma edit_trans (a b c : text) :
  cleaning_edit a b -> cleaning_edit b c -> cleaning_edit a c.
Proof.
  intros Hab. revert c.
  induction Hab as [|x a b _ IH|x a b Hx _ IH|x a b Hx Hnl _ IH]; intros c Hbc.
  - done.
  - inversion Hbc; subst.
    + apply edit_keep; auto.
    + apply edit_delete; auto.
    + apply edit_respace; auto.
  - apply edit_delete; auto.
  - inversion Hbc; subst.
    + apply edit_respace; auto.
    + apply edit_delete; auto.
    + apply edit_respace; auto.
Qed.

Lemma edit_length (s t : text) :
  cleaning_edit s t -> (length t <= length s)%nat.
Proof. induction 1; simpl; lia. Qed.

Lemma edit_filter_emoji (t : text) :
  cleaning_edit t (List.filter (fun c => negb (in_emoji c)) t).
Proof.
  induction t as [|c r IH]; simpl; [constructor|].
  destruct (in_emoji c) eqn:Hc; simpl; [|by constructor].
  apply edit_delete; auto.
Qed.

Lemma edit_delete_all (l : text) :
  Forall (fun c => isspace c = true) l -> Forall (fun c => c <> NL) l ->
  cleaning_edit l [].
Proof.
  induction 1 as [|c r Hc _ IH]; intros Hnl; [constructor|].
  apply Forall_cons in Hnl as [? ?]. apply edit_delete; auto.
Qed.

Lemma edit_respace_all (l : text) :
  Forall (fun c => isspace c = true) l -> Forall (fun c => c <> NL) l ->
  cleaning_edit l (replicate (length l) SPACE).
Proof.
  induction 1 as [|c r Hc _ IH]; intros Hnl; [constructor|].
  apply Forall_cons in Hnl as [? ?]. simpl. apply edit_respace; auto.
Qed.

Lemma edit_squeeze (s : text) : cleaning_edit s (squeeze s).
Proof.
  induction s as [|c r IH]; [constructor|]. cbn [squeeze].
  destruct (Z.eqb_spec c SPACE) as [->|Hc]; [|by constructor].
  destruct (_ && _); [|by constructor].
  apply edit_delete; [by right|done].
Qed.

Lemma edit_normalize_line (l : text) :
  Forall (fun c => c <> NL) l -> cleaning_edit l (normalize_line l).
Proof.
  intros Hnl.
  destruct (normalize_line_cases l)
    as [(_ & Hl & ->)|(ind & body & trail & -> & Hi & Ht & _ & _ & ->)].
  - by apply edit_delete_all.
  - apply Forall_app in Hnl as [Hnl1 [Hnl2 Hnl3]%Forall_app].
    apply edit_app; [by apply edit_respace_all|].
    rewrite <- (app_nil_r (squeeze body)).
    apply edit_app; [apply edit_squeeze|by apply edit_delete_all].
Qed.

Lemma edit_join (ls : list text) :
  Forall (Forall (fun c => c <> NL)) ls ->
  cleaning_edit (join NL ls) (join NL (map normalize_line ls)).
Proof.
  induction 1 as [|l ls Hl Hls IH]; [constructor|].
  destruct ls as [|l' ls']; [by apply edit_normalize_line|].
  change (cleaning_edit (l ++ NL :: join NL (l' :: ls'))
            (normalize_line l ++ NL :: join NL (map normalize_line (l' :: ls')))).
  apply edit_app; [by apply edit_normalize_line|]. by apply edit_keep.
Qed.

Lemma edit_cleaned (t : text) : cleaning_edit t (remove_emojis_from_text t).
Proof.
  apply (edit_trans _ (sub EMOJI_PATTERN [] t)).
  - rewrite sub_emoji. apply edit_filter_emoji.
  - unfold remove_emojis_from_text.
    rewrite <- (join_split NL (sub EMOJI_PATTERN [] t)) at 1.
    apply edit_join, split_no_sep.
Qed.

(** ** What is preserved *)

Lemma squeeze_squeezed (s : text) : squeezed s (squeeze s).
Proof.
  induction s as [|c r IH]; [constructor|]. cbn [squeeze].
  destruct (Z.eqb_spec c SPACE) as [->|Hc]; [|by constructor].
  destruct r as [|d r']; [by constructor|].
  destruct (Z.eqb_spec d SPACE) as [->|Hd]; [|by constructor].
  by apply squeezed_drop.
Qed.

Lemma replicate_spaces (ind : text) :
  Forall (fun c => c = SPACE) ind -> replicate (length ind) SPACE = ind.
Proof. induction 1 as [|c r -> _ IH]; simpl; [done|]. by rewrite IH. Qed.

Lemma normalize_line_rewrite (l : text) : line_rewrite l (normalize_line l).
Proof.
  destruct (normalize_line_cases l)
    as [(_ & Hl & ->)|(ind & body & trail & -> & Hi & Ht & Hs & He & ->)].
  - by apply rewrite_blank.
  - apply rewrite_content; try done.
    + apply squeeze_squeezed.
    + apply squeeze_no_double.
Qed.

Lemma line_rewrite_frame (l l' : text) : line_rewrite l l' -> line_frame l l'.
Proof.
  intros [l0 Hl|ind body trail body' Hi Ht Hs He Hsq Hd].
  - by apply frame_blank.
  - apply frame_content; try done.
    + apply length_replicate.
    + by apply Forall_replicate.
    + apply replicate_spaces.
Qed.

Lemma cleaned_lines_rewrite (t : text) :
  Forall2 line_rewrite
    (split NL (List.filter (fun c => negb (in_emoji c)) t))
    (split NL (remove_emojis_from_text t)).
Proof.
  rewrite split_cleaned. unfold cleaned_lines. rewrite sub_emoji.
  induction (split NL _) as [|l ls IH]; simpl; constructor; [|done].
  apply normalize_line_rewrite.
Qed.

(** C10. The result is never longer than the text.  It is obtained from
    it by deleting code points (of the Emoji Range Set, or whitespace) and
    by putting one plain space for one whitespace code point, and nothing
    is inserted: once the emoji are deleted, each line loses its trailing
    whitespace and the surplus spaces of the runs of spaces of its body,
    and gets one plain space for each code point of its indentation. *)
Theorem strip_emojis_never_longer (t : text) :
  (length (remove_emojis_from_text t) <= length t)%nat
  /\ cleaning_edit t (remove_emojis_from_text t)
  /\ Forall2 line_rewrite
       (split NL (List.filter (fun c => negb (in_emoji c)) t))
       (split NL (remove_emojis_from_text t)).
Proof.
  split; [apply edit_length, edit_cleaned|].
  split; [apply edit_cleaned|apply cleaned_lines_rewrite].
Qed.

(** C4.  What the cleaner preserves.  It deletes the code points of the
    Emoji Range Set; what is left and the result have the same lines,
    separated by single line separators, and each line of the result is
    the line it comes from with its trailing whitespace removed and the
    runs of spaces of its body collapsed, all else in the body as it was
    and indentation of plain spaces kept as it is. *)
Theorem strip_emojis_frame (t : text) :
  Forall2 line_frame
    (split NL (List.filter (fun c => negb (in_emoji c)) t))
    (split NL (remove_emojis_from_text t))
  /\ join NL (split NL (remove_emojis_from_text t)) = remove_emojis_from_text t.
Proof.
  split; [|apply join_split].
  eapply Forall2_impl; [apply cleaned_lines_rewrite|].
  apply line_rewrite_frame.
Qed.

(** C4, to the letter, fails: a trailing space is outside every emoji run
    and every run of two or more spaces, and is removed. *)
Lemma strip_emojis_frame_counterexample :
  ~ preserved_as_claimed (cp "a ") (remove_emojis_from_text (cp "a ")).
Proof.
  unfold preserved_as_claimed.
  change (~ squeezed [97; 32] [97]).
  intros H. inversion H as [|c s t' H'|]; subst. inversion H'.
Qed.

(** C2.  Indentation made of plain spaces is kept, and the double space
    after it collapsed; but the indentation is rebuilt from its length
    alone, so a tab in front of a line comes back as a plain space. *)
Theorem tab_indentation_becomes_space :
  remove_emojis_from_text (cp "    a  b") = cp "    a b"
  /\ remove_emojis_from_text ([9] ++ cp "a  b") = cp " a b"
  /\ remove_emojis_from_text ([9] ++ cp "a  b") <> [9] ++ cp "a b"
  /\ remove_emojis_from_text ([9] ++ cp "- done " ++ [0x2705]) = cp " - done".
Proof. by repeat split. Qed.

(** * Properties of the File Walker *)

(** ** One file *)

Ltac unfold_process :=
  unfold process_markdown_file, try_except, read_text, write_text,
    read_outcome, write_outcome, mbind, io_bind, emit, lookup_text,
    replace_text, raise, mret, io_ret in *;
  cbn [files events fst snd] in *.

(** The defensive comparison of line 96 never succeeds. *)
Lemma cleaned_differs (t : text) :
  count_matches t <> 0%nat -> t <> remove_emojis_from_text t.
Proof.
  intros Hn E. apply Hn. unfold count_matches.
  rewrite findall_emoji_free; [done|]. rewrite E. apply cleaned_emoji_free.
Qed.

Lemma process_read_error (p : path) (dry : bool) (w : world) (e : exn) :
  read_outcome p w = inl e ->
  process_markdown_file p dry w
  = (World (files w) (events w ++ [OpenRead p; Stderr p e]), (false, 0%nat)).
Proof.
  intros H. unfold_process.
  destruct (files w !! p) as [[|[] wr [t|]]|]; simplify_eq/=;
    by rewrite <- app_assoc.
Qed.

Lemma process_no_emoji (p : path) (dry : bool) (w : world) (t : text) :
  read_outcome p w = inr t -> count_matches t = 0%nat ->
  process_markdown_file p dry w
  = (World (files w) (events w ++ [OpenRead p]), (false, 0%nat)).
Proof.
  intros H Hc. unfold_process.
  destruct (files w !! p) as [[|[] wr [t'|]]|]; simplify_eq/=.
  by rewrite Hc.
Qed.

Lemma process_dry_run (p : path) (w : world) (t : text) :
  read_outcome p w = inr t -> count_matches t <> 0%nat ->
  process_markdown_file p true w
  = (World (files w) (events w ++ [OpenRead p]), (true, count_matches t)).
Proof.
  intros H Hc. pose proof (cleaned_differs t Hc) as Hd.
  apply Nat.eqb_neq in Hc. unfold_process.
  destruct (files w !! p) as [[|[] wr [t'|]]|]; simplify_eq/=.
  rewrite Hc. by rewrite bool_decide_eq_false_2.
Qed.

Lemma process_write_error (p : path) (w : world) (t : text) (e : exn) :
  read_outcome p w = inr t -> count_matches t <> 0%nat ->
  write_outcome p (remove_emojis_from_text t) w = inl e ->
  process_markdown_file p false w
  = (World (files w) (events w ++ [OpenRead p; OpenWrite p; Stderr p e]),
     (false, 0%nat)).
Proof.
  intros H Hc Hw. pose proof (cleaned_differs t Hc) as Hd.
  apply Nat.eqb_neq in Hc. unfold_process.
  destruct (files w !! p) as [[|[] [] [t'|]]|] eqn:E; simplify_eq/=.
  rewrite Hc, bool_decide_eq_false_2 by done. cbn. rewrite E. cbn.
  by rewrite <- !app_assoc.
Qed.

Lemma process_written (p : path) (w : world) (t : text) :
  read_outcome p w = inr t -> count_matches t <> 0%nat ->
  write_outcome p (remove_emojis_from_text t) w = inr tt ->
  process_markdown_file p false w
  = (World (<[p := File true true (Some (remove_emojis_from_text t))]> (files w))
           (events w ++ [OpenRead p; OpenWrite p]),
     (true, count_matches t)).
Proof.
  intros H Hc Hw. pose proof (cleaned_differs t Hc) as Hd.
  apply Nat.eqb_neq in Hc. unfold_process.
  destruct (files w !! p) as [[|[] [] [t'|]]|] eqn:E; simplify_eq/=.
  rewrite Hc, bool_decide_eq_false_2 by done. cbn. rewrite E. cbn.
  by rewrite <- !app_assoc.
Qed.

(** Every call is one of the five cases above. *)
Lemma process_cases (p : path) (dry : bool) (w : world) :
  (exists e, read_outcome p w = inl e
     /\ process_markdown_file p dry w
        = (World (files w) (events w ++ [OpenRead p; Stderr p e]), (false, 0%nat)))
  \/ (exists t, read_outcome p w = inr t /\ count_matches t = 0%nat
     /\ process_markdown_file p dry w
        = (World (files w) (events w ++ [OpenRead p]), (false, 0%nat)))
  \/ (exists t, read_outcome p w = inr t /\ count_matches t <> 0%nat
     /\ dry = true
     /\ process_markdown_file p dry w
        = (World (files w) (events w ++ [OpenRead p]), (true, count_matches t)))
  \/ (exists t e, read_outcome p w = inr t /\ count_matches t <> 0%nat
     /\ dry = false
     /\ write_outcome p (remove_emojis_from_text t) w = inl e
     /\ process_markdown_file p dry w
        = (World (files w) (events w ++ [OpenRead p; OpenWrite p; Stderr p e]),
           (false, 0%nat)))
  \/ (exists t, read_outcome p w = inr t /\ count_matches t <> 0%nat
     /\ dry = false
     /\ write_outcome p (remove_emojis_from_text t) w = inr tt
     /\ process_markdown_file p dry w
        = (World (<[p := File true true (Some (remove_emojis_from_text t))]>
                    (files w))
                 (events w ++ [OpenRead p; OpenWrite p]),
           (true, count_matches t))).
Proof.
  destruct (read_outcome p w) as [e|t] eqn:E.
  { left. exists e. split; [done|]. by apply process_read_error. }
  right. destruct (decide (count_matches t = 0%nat)) as [Hc|Hc].
  { left. exists t. repeat split; try done. by apply (process_no_emoji _ _ _ t). }
  right. destruct dry.
  { left. exists t. repeat split; try done. by apply process_dry_run. }
  right. destruct (write_outcome p (remove_emojis_from_text t) w) as [e|[]] eqn:Ew.
  - left. exists t, e. repeat split; try done. by apply (process_write_error _ _ t).
  - right. exists t. repeat split; try done. by apply process_written.
Qed.

Lemma process_files_other (p q : path) (dry : bool) (w : world) :
  q <> p -> files (process_markdown_file p dry w).1 !! q = files w !! q.
Proof.
  intros Hq.
  destruct (process_cases p dry w)
    as [(e & _ & ->)|[(t & _ & _ & ->)|[(t & _ & _ & _ & ->)
       |[(t & e & _ & _ & _ & _ & ->)|(t & _ & _ & _ & _ & ->)]]]];
    cbn [fst files]; try done.
  by rewrite lookup_insert_ne.
Qed.

Lemma read_outcome_local (p : path) (w1 w2 : world) :
  files w1 !! p = files w2 !! p -> read_outcome p w1 = read_outcome p w2.
Proof.
  intros E. unfold read_outcome, lookup_text, raise. rewrite E.
  by repeat case_match.
Qed.

Lemma write_outcome_local (p : path) (t : text) (w1 w2 : world) :
  files w1 !! p = files w2 !! p -> write_outcome p t w1 = write_outcome p t w2.
Proof.
  intros E. unfold write_outcome, replace_text, raise. rewrite E.
  by repeat case_match.
Qed.

(** The pair a call returns, from what reading and writing would do. *)
Lemma process_result (p : path) (dry : bool) (w : world) :
  (process_markdown_file p dry w).2
  = match read_outcome p w with
    | inl _ => (false, 0%nat)
    | inr t =>
        if (count_matches t =? 0)%nat then (false, 0%nat)
        else if dry then (true, count_matches t)
        else match write_outcome p (remove_emojis_from_text t) w with
             | inl _ => (false, 0%nat)
             | inr _ => (true, count_matches t)
             end
    end.
Proof.
  destruct (process_cases p dry w)
    as [(e & -> & ->)|[(t & -> & Hc & ->)|[(t & -> & Hc & -> & ->)
       |[(t & e & -> & Hc & -> & -> & ->)|(t & -> & Hc & -> & -> & ->)]]]];
    cbn [snd]; try done.
  - by rewrite Hc.
  - apply Nat.eqb_neq in Hc. by rewrite Hc.
  - apply Nat.eqb_neq in Hc. by rewrite Hc.
  - apply Nat.eqb_neq in Hc. by rewrite Hc.
Qed.

Lemma process_result_local (p : path) (dry : bool) (w1 w2 : world) :
  files w1 !! p = files w2 !! p ->
  (process_markdown_file p dry w1).2 = (process_markdown_file p dry w2).2.
Proof.
  intros E. rewrite !process_result, (read_outcome_local p w1 w2) by done.
  destruct (read_outcome p w2) as [|t]; [done|].
  by rewrite (write_outcome_local p _ w1 w2).
Qed.

(** What a call adds to the trace: it opens its file for reading, once,
    and no other. *)
Lemma process_events (p : path) (dry : bool) (w : world) :
  exists evs, events (process_markdown_file p dry w).1
              = events w ++ OpenRead p :: evs
              /\ reads_of evs = []
              /\ Forall (fun e => forall m, e <> Stdout m) evs.
Proof.
  destruct (process_cases p dry w)
    as [(e & _ & ->)|[(t & _ & _ & ->)|[(t & _ & _ & _ & ->)
       |[(t & e & _ & _ & _ & _ & ->)|(t & _ & _ & _ & _ & ->)]]]];
    cbn [fst events]; eexists; (split; [reflexivity|]);
    by repeat constructor.
Qed.

(** C7. In the pair [process_markdown_file] returns, on every path, the
    flag is false exactly when the count is zero. *)
Theorem changed_flag_agrees_with_count (p : path) (dry : bool) (w : world) :
  (process_markdown_file p dry w).2.1 = false
  <-> (process_markdown_file p dry w).2.2 = 0%nat.
Proof.
  destruct (process_cases p dry w)
    as [(e & _ & ->)|[(t & _ & _ & ->)|[(t & _ & Hc & _ & ->)
       |[(t & e & _ & _ & _ & _ & ->)|(t & _ & Hc & _ & _ & ->)]]]];
    cbn [fst snd]; try done.
Qed.

(** C5.  A dry run leaves every file as it is, and on a readable file
    with emoji it returns the flag and the count; a live run returns the
    same pair whenever its write does not fail. *)
Theorem dry_run_leaves_files (p : path) (w : world) :
  files (process_markdown_file p true w).1 = files w
  /\ (forall t, read_outcome p w = inr t -> count_matches t <> 0%nat ->
        (process_markdown_file p true w).2 = (true, count_matches t))
  /\ ((forall t e, write_outcome p t w <> inl e) ->
      (process_markdown_file p false w).2 = (process_markdown_file p true w).2).
Proof.
  split; [|split].
  - destruct (process_cases p true w)
      as [(e & _ & ->)|[(t & _ & _ & ->)|[(t & _ & _ & _ & ->)
         |[(t & e & _ & _ & ? & _)|(t & _ & _ & ? & _)]]]]; done.
  - intros t Ht Hc. by rewrite (process_dry_run p w t).
  - intros Hw. rewrite !process_result.
    destruct (read_outcome p w) as [|t]; [done|].
    destruct (_ =? _)%nat; [done|].
    destruct (write_outcome _ _ _) as [e|] eqn:E; [|done].
    by destruct (Hw _ _ E).
Qed.

Lemma dry_run_leaves_files_witness :
  files (process_markdown_file ["proj"; "README.md"] true (example_world true)).1
  = files (example_world true)
  /\ (process_markdown_file ["proj"; "README.md"] true (example_world true)).2
     = (true, 1%nat)
  /\ (process_markdown_file ["proj"; "README.md"] false (example_world true)).2
     = (process_markdown_file ["proj"; "README.md"] true (example_world true)).2.
Proof.
  destruct (dry_run_leaves_files ["proj"; "README.md"] (example_world true))
    as (H1 & H2 & H3).
  split; [exact H1|]. split.
  - apply (H2 party); [reflexivity|discriminate].
  - apply H3. intros t e. vm_compute. discriminate.
Defined.

(** C5, without that condition, fails on a file that cannot be written:
    the dry run reports the change, the live run fails to write and
    reports none. *)
Lemma dry_run_same_result_counterexample :
  (process_markdown_file ["proj"; "README.md"] true (example_world false)).2
  = (true, 1%nat)
  /\ (process_markdown_file ["proj"; "README.md"] false (example_world false)).2
     = (false, 0%nat).
Proof. split; vm_compute; reflexivity. Qed.

(** ** Discovery *)

Lemma path_lt_asym (p q : path) : lexico p q -> lexico q p -> False.
Proof.
  intros H1 H2. apply (irreflexivity (@lexico path _) p).
  by apply (transitivity (R := lexico) H1).
Qed.

Global Instance path_le_total : Total path_le.
Proof.
  intros p q. unfold path_le.
  destruct (trichotomy lexico p q) as [H|[->|H]].
  - left. intros H'. by apply (path_lt_asym p q).
  - left. apply (irreflexivity (@lexico path _)).
  - right. intros H'. by apply (path_lt_asym p q).
Qed.

Global Instance path_le_trans : Transitive path_le.
Proof.
  intros p q r Hpq Hqr Hrp. unfold path_le in *.
  destruct (trichotomy lexico q r) as [H|[->|H]]; [|done..].
  apply Hpq. by apply (transitivity (R := lexico) H).
Qed.

Global Instance path_le_antisym : AntiSymm (=) path_le.
Proof.
  intros p q Hpq Hqp. unfold path_le in *.
  by destruct (trichotomy lexico p q) as [H|[->|H]].
Qed.

Lemma elem_of_rglob_md (root_dir p : path) (w : world) :
  p ∈ rglob_md root_dir w
  <-> is_Some (files w !! p)
      /\ root_dir `prefix_of` p /\ (length root_dir < length p)%nat
      /\ exists name, last p = Some name /\ is_md name = true.
Proof.
  unfold rglob_md. rewrite list_elem_of_In, List.filter_In, <- list_elem_of_In.
  rewrite !andb_true_iff, bool_decide_eq_true, Nat.ltb_lt.
  rewrite list_elem_of_fmap. split.
  - intros [([q x] & -> & Hq%elem_of_map_to_list) [[Hpre Hlen] Hmd]].
    cbn [fst] in *. repeat split; try done.
    destruct (last q) as [name|]; [by exists name|done].
  - intros ([x Hx] & Hpre & Hlen & name & Hlast & Hmd). split.
    + exists (p, x). split; [done|]. by apply elem_of_map_to_list.
    + by rewrite Hlast.
Qed.

Lemma NoDup_rglob_md (root_dir : path) (w : world) : NoDup (rglob_md root_dir w).
Proof.
  unfold rglob_md. apply NoDup_ListNoDup, List.NoDup_filter, NoDup_ListNoDup.
  apply NoDup_fst_map_to_list.
Qed.

Lemma in_excluded_dir_spec (exclude_dirs : gset string) (p : path) :
  in_excluded_dir exclude_dirs p = true
  <-> exists name, name ∈ exclude_dirs /\ name ∈ p.
Proof.
  unfold in_excluded_dir. rewrite List.existsb_exists.
  split; intros (name & H1 & H2); exists name.
  - apply list_elem_of_In, elem_of_elements in H1.
    by apply bool_decide_eq_true in H2.
  - split; [by apply list_elem_of_In, elem_of_elements|].
    by apply bool_decide_eq_true.
Qed.

Lemma elem_of_select_sorted (exclude_dirs : gset string) (globbed : list path)
    (p : path) :
  p ∈ select_sorted exclude_dirs globbed
  <-> p ∈ globbed /\ forall name, name ∈ p -> name ∉ exclude_dirs.
Proof.
  unfold select_sorted. rewrite merge_sort_Permutation.
  rewrite list_elem_of_In, List.filter_In, <- list_elem_of_In.
  rewrite negb_true_iff, <- not_true_iff_false, in_excluded_dir_spec.
  split; intros [Hp H]; (split; [done|]).
  - intros name Hn He. apply H. eauto.
  - intros (name & He & Hn). by apply (H name).
Qed.

Lemma NoDup_select_sorted (exclude_dirs : gset string) (globbed : list path) :
  NoDup globbed -> NoDup (select_sorted exclude_dirs globbed).
Proof.
  intros H. unfold select_sorted. rewrite merge_sort_Permutation.
  by apply NoDup_ListNoDup, List.NoDup_filter, NoDup_ListNoDup.
Qed.

Lemma sorted_select_sorted (exclude_dirs : gset string) (globbed : list path) :
  StronglySorted path_le (select_sorted exclude_dirs globbed).
Proof. apply (StronglySorted_merge_sort path_le). Qed.

(** The result is the same for every order in which the glob may yield
    the same paths. *)
Lemma select_sorted_order (exclude_dirs : gset string) (g1 g2 : list path) :
  NoDup g1 -> NoDup g2 -> (forall p, p ∈ g1 <-> p ∈ g2) ->
  select_sorted exclude_dirs g1 = select_sorted exclude_dirs g2.
Proof.
  intros H1 H2 H. apply (StronglySorted_unique path_le).
  - apply sorted_select_sorted.
  - apply sorted_select_sorted.
  - apply NoDup_Permutation; [by apply NoDup_select_sorted..|].
    intros p. rewrite !elem_of_select_sorted, H. done.
Qed.




(** ** The run *)

Lemma process_one_eq (project_root : path) (dry verbose : bool)
    (w : world) (acc : summary) (p : path) :
  process_one project_root dry verbose (w, acc) p
  = let r := process_markdown_file p dry w in
    if r.2.1 then
      (if verbose
       then print (MsgFile dry r.2.2 (relative_to project_root p)) r.1
       else r.1,
       Summary (total_changed acc + 1) (total_emojis acc + r.2.2)
               (changed_files acc ++ [(relative_to project_root p, r.2.2)]))
    else (r.1, acc).
Proof.
  unfold process_one.
  by destruct (process_markdown_file p dry w) as [w' [changed n]].
Qed.

Lemma reads_of_app (e1 e2 : list event) :
  reads_of (e1 ++ e2) = reads_of e1 ++ reads_of e2.
Proof. apply omap_app. Qed.

Lemma process_one_reads (project_root : path) (dry verbose : bool)
    (w : world) (acc : summary) (p : path) :
  reads_of (events (process_one project_root dry verbose (w, acc) p).1)
  = reads_of (events w) ++ [p].
Proof.
  rewrite process_one_eq. cbn zeta.
  destruct (process_events p dry w) as (evs & Hev & Hr & _).
  destruct (process_markdown_file p dry w) as [w' [changed n]].
  cbn [fst snd] in *.
  assert (reads_of (OpenRead p :: evs) = [p]) as Hp
    by (change (reads_of (OpenRead p :: evs)) with (p :: reads_of evs);
        by rewrite Hr).
  destruct changed, verbose; cbn [fst print events];
    rewrite Hev, ?reads_of_app, Hp; [|done..].
  by rewrite app_nil_r.
Qed.

Lemma process_one_files (project_root : path) (dry verbose : bool)
    (w : world) (acc : summary) (p q : path) :
  q <> p ->
  files (process_one project_root dry verbose (w, acc) p).1 !! q = files w !! q.
Proof.
  intros Hq. rewrite process_one_eq. cbn zeta.
  pose proof (process_files_other p q dry w Hq) as H.
  destruct (process_markdown_file p dry w) as [w' [changed n]].
  cbn [fst snd] in *. by destruct changed, verbose.
Qed.

(** The loop over the files, from a world [w] that agrees on them with
    the world [w0] the run started in. *)
Lemma loop_invariant (project_root : path) (dry verbose : bool) (w0 : world)
    (fs : list path) :
  NoDup fs ->
  forall (w : world) (acc : summary),
    (forall q, q ∈ fs -> files w !! q = files w0 !! q) ->
    let st := fold_left (process_one project_root dry verbose) fs (w, acc) in
    reads_of (events st.1) = reads_of (events w) ++ fs
    /\ ((0 < total_changed st.2)%nat
        <-> (0 < total_changed acc)%nat
            \/ exists p, p ∈ fs /\ (process_markdown_file p dry w0).2.1 = true)
    /\ ((forall p, p ∈ fs -> (process_markdown_file p dry w0).2.1 = false) ->
        st.2 = acc)
    /\ (total_changed st.2 <= total_changed acc + length fs)%nat.
Proof.
  induction 1 as [|p fs Hp Hnd IH]; intros w acc Hw; cbn zeta.
  - cbn [fold_left fst snd]. rewrite app_nil_r. repeat split; try done.
    + by left.
    + intros [?|(p & Hp%elem_of_nil & _)]; done.
    + cbn. lia.
  - cbn [fold_left].
    destruct (process_one project_root dry verbose (w, acc) p)
      as [w1 acc1] eqn:E1.
    assert (forall q, q ∈ fs -> files w1 !! q = files w0 !! q) as Hw1.
    { intros q Hq. rewrite <- (Hw q) by by right.
      replace w1 with (process_one project_root dry verbose (w, acc) p).1
        by by rewrite E1.
      apply process_one_files. by intros ->. }
    destruct (IH w1 acc1 Hw1) as (IHr & IHc & IHn & IHl). clear IH.
    pose proof (process_one_reads project_root dry verbose w acc p) as Hr.
    rewrite E1 in Hr. cbn [fst] in Hr.
    pose proof (process_result_local p dry w w0 (Hw p (list_elem_of_here _ _)))
      as Hloc.
    rewrite process_one_eq in E1. cbn zeta in E1. rewrite Hloc in E1.
    destruct ((process_markdown_file p dry w0).2.1) eqn:Hch;
      injection E1 as <- <-.
    + repeat split.
      * rewrite IHr, Hr, <- app_assoc. done.
      * intros _. right. exists p. split; [by left|done].
      * intros _. apply IHc. left. cbn. lia.
      * intros Hall. rewrite (Hall p) in Hch by by left. done.
      * cbn in *. lia.
    + repeat split.
      * rewrite IHr, Hr, <- app_assoc. done.
      * intros [?|(q & Hq & Hqc)]%IHc; [by left|].
        right. exists q. split; [by right|done].
      * intros [?|(q & Hq & Hqc)]; apply IHc; [by left|].
        apply elem_of_cons in Hq as [->|Hq]; [congruence|].
        right. by exists q.
      * intros Hall. apply IHn. intros q Hq. apply Hall. by right.
      * cbn in *. lia.
Qed.

Lemma main_eq (argv : list string) (project_root : path) (w : world) :
  let found := (find_markdown_files project_root None w).2 in
  let st := fold_left
              (process_one project_root (flag_dry_run argv) (flag_verbose argv))
              found (loop_entry argv project_root w, Summary 0 0 []) in
  (main argv project_root w).2
  = (if (0 <? total_changed st.2)%nat then 0 else 1)
  /\ exists evs,
       events (main argv project_root w).1
       = events st.1
         ++ Stdout (MsgSummary (length found) (total_changed st.2)
                               (total_emojis st.2)) :: evs
       /\ reads_of evs = [].
Proof.
  cbn zeta. unfold main, loop_entry.
  change (find_markdown_files project_root None
            (print MsgScanning
               (print (MsgHeader project_root (flag_dry_run argv)) w))).2
    with (find_markdown_files project_root None w).2.
  destruct (find_markdown_files project_root None
              (print MsgScanning
                 (print (MsgHeader project_root (flag_dry_run argv)) w)))
    as [w1 found] eqn:Ef.
  assert (found = (find_markdown_files project_root None w).2) as <-.
  { change (find_markdown_files project_root None w).2
      with (find_markdown_files project_root None
              (print MsgScanning
                 (print (MsgHeader project_root (flag_dry_run argv)) w))).2.
    by rewrite Ef. }
  cbn [fst].
  destruct (fold_left _ found _) as [w2 acc2]. cbn [fst snd].
  split; [done|].
  destruct (changed_files acc2), (flag_verbose argv), (flag_dry_run argv),
    (0 <? total_changed acc2)%nat; cbn [negb andb print events];
    rewrite <- ?app_assoc; eexists; (split; [reflexivity|done]).
Qed.

Lemma NoDup_found (project_root : path) (w : world) :
  NoDup (find_markdown_files project_root None w).2.
Proof. apply NoDup_select_sorted, NoDup_rglob_md. Qed.

Lemma main_loop (argv : list string) (project_root : path) (w : world) :
  let found := (find_markdown_files project_root None w).2 in
  let st := fold_left
              (process_one project_root (flag_dry_run argv) (flag_verbose argv))
              found (loop_entry argv project_root w, Summary 0 0 []) in
  reads_of (events st.1) = reads_of (events w) ++ found
  /\ ((0 < total_changed st.2)%nat
      <-> exists p, p ∈ found
                    /\ (process_markdown_file p (flag_dry_run argv) w).2.1 = true)
  /\ ((forall p, p ∈ found ->
                 (process_markdown_file p (flag_dry_run argv) w).2.1 = false) ->
      st.2 = Summary 0 0 [])
  /\ (total_changed st.2 <= length found)%nat.
Proof.
  cbn zeta.
  destruct (loop_invariant project_root (flag_dry_run argv) (flag_verbose argv)
              w _ (NoDup_found project_root w)
              (loop_entry argv project_root w) (Summary 0 0 []))
    as (Hr & Hc & Hn & Hl); [done|].
  repeat split; try done.
  - rewrite Hr. f_equal. unfold loop_entry, find_markdown_files, print.
    cbn [fst events]. rewrite !reads_of_app. cbn. by rewrite !app_nil_r.
  - intros [H|H]%Hc; [cbn in H; lia|done].
  - intros H. apply Hc. by right.
Qed.



(** C8. A failure to read or to write a file is caught inside
    [process_markdown_file]: the error goes to standard error and the call
    returns unchanged with count zero.  [main] always returns; it opens
    every file found, once and in order, and prints the summary for all of
    them, whatever fails; if every file fails the summary shows no change. *)
Theorem io_failures_are_contained :
  (forall (p : path) (dry : bool) (w : world) (e : exn),
      read_outcome p w = inl e ->
      process_markdown_file p dry w
      = (World (files w) (events w ++ [OpenRead p; Stderr p e]), (false, 0%nat)))
  /\ (forall (p : path) (w : world) (t : text) (e : exn),
        read_outcome p w = inr t -> count_matches t <> 0%nat ->
        write_outcome p (remove_emojis_from_text t) w = inl e ->
        process_markdown_file p false w
        = (World (files w)
                 (events w ++ [OpenRead p; OpenWrite p; Stderr p e]),
           (false, 0%nat)))
  /\ (forall (argv : list string) (project_root : path) (w : world),
        reads_of (events (main argv project_root w).1)
        = reads_of (events w) ++ (find_markdown_files project_root None w).2
        /\ (exists changed emojis,
              Stdout (MsgSummary
                        (length (find_markdown_files project_root None w).2)
                        changed emojis)
              ∈ events (main argv project_root w).1
              /\ (changed <= length (find_markdown_files project_root None w).2)%nat)
        /\ ((forall p, p ∈ (find_markdown_files project_root None w).2 ->
                       exists e, read_outcome p w = inl e) ->
            Stdout (MsgSummary
                      (length (find_markdown_files project_root None w).2) 0 0)
            ∈ events (main argv project_root w).1)).
Proof.
  split; [exact process_read_error|]. split; [exact process_write_error|].
  intros argv project_root w.
  destruct (main_eq argv project_root w) as [_ (evs & Hev & Hr)].
  destruct (main_loop argv project_root w) as (Hreads & _ & Hnone & Hle).
  cbn zeta in *. rewrite Hev. split; [|split].
  - rewrite reads_of_app, Hreads.
    change (reads_of (Stdout ?m :: evs)) with (reads_of evs).
    by rewrite Hr, app_nil_r.
  - eexists _, _. split; [|exact Hle].
    apply elem_of_app. right. by left.
  - intros Hfail. rewrite Hnone.
    + apply elem_of_app. right. by left.
    + intros p Hp. destruct (Hfail p Hp) as [e He].
      by rewrite (process_read_error p _ w e He).
Qed.

Lemma io_failures_are_contained_witness :
  process_markdown_file ["proj"; "docs"] false (example_world true)
  = (World (files (example_world true))
           [OpenRead ["proj"; "docs"];
            Stderr ["proj"; "docs"] IsADirectoryError],
     (false, 0%nat))
  /\ process_markdown_file ["proj"; "README.md"] false (example_world false)
     = (World (files (example_world false))
              [OpenRead ["proj"; "README.md"]; OpenWrite ["proj"; "README.md"];
               Stderr ["proj"; "README.md"] PermissionError],
        (false, 0%nat))
  /\ Stdout (MsgSummary
               (length (find_markdown_files ["proj"] None broken_world).2) 0 0)
     ∈ events (main ["remove_emojis.py"] ["proj"] broken_world).1.
Proof.
  destruct io_failures_are_contained as (Hread & Hwrite & Hmain).
  split; [|split].
  - apply (Hread ["proj"; "docs"] false (example_world true) IsADirectoryError).
    reflexivity.
  - apply (Hwrite ["proj"; "README.md"] (example_world false) party
                  PermissionError).
    + reflexivity.
    + discriminate.
    + reflexivity.
  - apply (Hmain ["remove_emojis.py"] ["proj"] broken_world).
    intros p Hp. vm_compute in Hp.
    apply list_elem_of_In in Hp. simpl in Hp.
    destruct Hp as [<-|[<-|[]]]; eexists; reflexivity.
Defined.

(** * Further properties *)

(** ** The emoji class *)

Lemma in_emoji_spec (c : Z) :
  in_emoji c = true
  <-> c = 0x200D
      \/ (0x24C2 <= c <= 0x1F251)
      \/ (0x1F300 <= c <= 0x1F64F)
      \/ (0x1F680 <= c <= 0x1FAFF).
Proof.
  unfold in_emoji, in_class, EMOJI_CLASS. cbn [existsb item_matches].
  rewrite !orb_true_iff, !andb_true_iff, !Z.leb_le, !Z.eqb_eq. lia.
Qed.

(** X1. The bracket expression of [EMOJI_PATTERN], with its overlapping
    and nested ranges, matches exactly the zero width joiner and three
    intervals: U+24C2 to U+1F251, U+1F300 to U+1F64F and U+1F680 to
    U+1FAFF.  So no code point below U+200D is ever taken for an emoji,
    and every CJK unified ideograph (U+4E00 to U+9FFF) is. *)
Theorem emoji_class_is_union (c : Z) :
  (in_emoji c = true
   <-> c = 0x200D
       \/ (0x24C2 <= c <= 0x1F251)
       \/ (0x1F300 <= c <= 0x1F64F)
       \/ (0x1F680 <= c <= 0x1FAFF))
  /\ (c < 0x200D -> in_emoji c = false)
  /\ (0x4E00 <= c <= 0x9FFF -> in_emoji c = true).
Proof.
  split; [apply in_emoji_spec|]. split.
  - intros Hc. apply not_true_iff_false. rewrite in_emoji_spec. lia.
  - intros Hc. apply in_emoji_spec. lia.
Qed.

Lemma emoji_class_is_union_witness :
  in_emoji 0x41 = false /\ in_emoji 0x4E2D = true.
Proof.
  split.
  - apply (proj1 (proj2 (emoji_class_is_union 0x41))). lia.
  - apply (proj2 (proj2 (emoji_class_is_union 0x4E2D))). lia.
Defined.


(** ** Matching and deleting *)

Lemma concat_findall_from (acc s : text) :
  concat (findall_from EMOJI_PATTERN acc s) = rev acc ++ List.filter in_emoji s.
Proof.
  revert acc. induction s as [|c r IH]; intros acc;
    cbn [findall_from List.filter].
  - destruct acc; [done|]. rewrite emoji_is_match by done.
    cbn [concat]. by rewrite !app_nil_r.
  - change (in_class (p_class EMOJI_PATTERN) c) with (in_emoji c).
    destruct (in_emoji c).
    + rewrite IH. cbn [rev]. by rewrite <- app_assoc.
    + rewrite concat_app, IH. destruct acc; [done|].
      rewrite emoji_is_match by done. cbn [concat rev app].
      by rewrite !app_nil_r.
Qed.

Lemma concat_findall (t : text) :
  concat (findall EMOJI_PATTERN t) = List.filter in_emoji t.
Proof. apply (concat_findall_from [] t). Qed.

Lemma maximal_runs_shape (s : text) (runs : list text) :
  maximal_runs s runs ->
  Forall (fun run => run <> [] /\ Forall (fun c => in_emoji c = true) run) runs.
Proof. induction 1; by constructor. Qed.

Lemma findall_shape (t : text) :
  Forall (fun run => run <> [] /\ Forall (fun c => in_emoji c = true) run)
         (findall EMOJI_PATTERN t).
Proof.
  apply (maximal_runs_shape t), (findall_from_runs [] t). constructor.
Qed.

Lemma length_concat_nonempty (ls : list text) :
  Forall (fun l => l <> []) ls -> (length ls <= length (concat ls))%nat.
Proof.
  induction 1 as [|l ls Hl _ IH]; [done|]. cbn [concat length].
  rewrite length_app. destruct l; [done|]. cbn [length]. lia.
Qed.

Lemma filter_split_length (t : text) :
  (length (List.filter in_emoji t)
   + length (List.filter (fun c => negb (in_emoji c)) t) = length t)%nat.
Proof.
  induction t as [|c r IH]; [done|]. cbn [List.filter].
  destruct (in_emoji c); cbn [negb length]; lia.
Qed.

Lemma filter_none (f : Z -> bool) (s : text) :
  List.filter f s = [] -> Forall (fun c => f c = false) s.
Proof.
  induction s as [|c r IH]; [done|]. cbn [List.filter].
  destruct (f c) eqn:E; [done|]. intros H. constructor; auto.
Qed.

(** X2. Substituting the empty string for the emoji pattern deletes
    exactly the code points of the class and keeps the others in order;
    the matches [findall] returns are non-empty runs of class members and
    together are exactly the deleted code points, in order. *)
Theorem sub_deletes_what_findall_matches (t : text) :
  sub EMOJI_PATTERN [] t = List.filter (fun c => negb (in_emoji c)) t
  /\ concat (findall EMOJI_PATTERN t) = List.filter in_emoji t
  /\ Forall (fun run => run <> [] /\ Forall (fun c => in_emoji c = true) run)
            (findall EMOJI_PATTERN t)
  /\ (length (sub EMOJI_PATTERN [] t)
      + length (concat (findall EMOJI_PATTERN t)) = length t)%nat.
Proof.
  split; [apply sub_emoji|]. split; [apply concat_findall|].
  split; [apply findall_shape|].
  rewrite sub_emoji, concat_findall.
  pose proof (filter_split_length t). lia.
Qed.

Lemma count_zero_iff (t : text) :
  count_matches t = 0%nat <-> Forall (fun c => in_emoji c = false) t.
Proof.
  split.
  - intros H. apply filter_none. rewrite <- concat_findall.
    unfold count_matches in H. apply length_zero_iff_nil in H.
    by rewrite H.
  - intros H. unfold count_matches. by rewrite findall_emoji_free.
Qed.

(** X3. The count is zero exactly when the text holds no code point of
    the class, and it never exceeds the number of such code points. *)
Theorem count_matches_bounds (t : text) :
  (count_matches t = 0%nat <-> Forall (fun c => in_emoji c = false) t)
  /\ (count_matches t <= length (List.filter in_emoji t))%nat.
Proof.
  split; [apply count_zero_iff|].
  unfold count_matches. rewrite <- concat_findall.
  apply length_concat_nonempty. eapply Forall_impl; [apply findall_shape|].
  by intros run [? _].
Qed.

Lemma cleaned_length_emoji (t : text) :
  (length (remove_emojis_from_text t) + length (List.filter in_emoji t)
   <= length t)%nat.
Proof.
  assert (length (remove_emojis_from_text t)
          <= length (sub EMOJI_PATTERN [] t))%nat as H.
  { apply edit_length. unfold remove_emojis_from_text.
    rewrite <- (join_split NL (sub EMOJI_PATTERN [] t)) at 1.
    apply edit_join, split_no_sep. }
  rewrite sub_emoji in H. pose proof (filter_split_length t). lia.
Qed.

(** X4. The result is shorter than the text by at least the number of
    its emoji code points; so a text with a match always changes, and the
    comparison of line 96 can never hold. *)
Theorem strip_emojis_strictly_shorter (t : text) :
  (length (remove_emojis_from_text t) + length (List.filter in_emoji t)
   <= length t)%nat
  /\ (count_matches t <> 0%nat ->
      (length (remove_emojis_from_text t) < length t)%nat
      /\ remove_emojis_from_text t <> t).
Proof.
  split; [apply cleaned_length_emoji|]. intros Hc.
  pose proof (cleaned_length_emoji t) as Hl.
  assert (count_matches t <= length (List.filter in_emoji t))%nat as Hb.
  { unfold count_matches. rewrite <- concat_findall.
    apply length_concat_nonempty. eapply Forall_impl; [apply findall_shape|].
    by intros run [? _]. }
  split; [lia|]. intros E. rewrite E in Hl. lia.
Qed.

Lemma strip_emojis_strictly_shorter_witness :
  (length (remove_emojis_from_text party) < length party)%nat
  /\ remove_emojis_from_text party <> party.
Proof.
  apply (proj2 (strip_emojis_strictly_shorter party)). discriminate.
Defined.

(** ** Lines *)

Lemma split_cons_length (sep c : Z) (r : text) :
  length (split sep (c :: r))
  = if c =? sep then S (length (split sep r)) else length (split sep r).
Proof.
  cbn [split]. pose proof (split_nonempty sep r).
  destruct (c =? sep); [done|]. by destruct (split sep r).
Qed.

Lemma split_filter_length (f : Z -> bool) (sep : Z) (s : text) :
  f sep = true ->
  length (split sep (List.filter f s)) = length (split sep s).
Proof.
  intros Hsep. induction s as [|c r IH]; [done|].
  rewrite split_cons_length. cbn [List.filter].
  destruct (Z.eqb_spec c sep) as [->|Hc].
  - rewrite Hsep, split_cons_length, Z.eqb_refl. by rewrite IH.
  - destruct (f c); [|done]. rewrite split_cons_length.
    apply Z.eqb_neq in Hc. by rewrite Hc.
Qed.

(** X5. The cleaner neither adds nor removes a line: the result has as
    many lines as the text. *)
Theorem strip_emojis_keeps_line_count (t : text) :
  length (split NL (remove_emojis_from_text t)) = length (split NL t).
Proof.
  rewrite split_cleaned. unfold cleaned_lines.
  rewrite length_map, sub_emoji. by apply split_filter_length.
Qed.

Lemma normalize_line_clean (l : text) : clean_line (normalize_line l).
Proof.
  destruct (normalize_line_cases l)
    as [(_ & _ & ->)|(ind & body & trail & _ & _ & _ & Hs & He & ->)];
    [by left|right].
  exists (length ind), (squeeze body). split; [done|].
  split; [by apply starts_nonspace_squeeze|].
  split; [by apply ends_nonspace_squeeze|apply squeeze_no_double].
Qed.

Lemma normalize_line_fixed_iff (l : text) :
  normalize_line l = l <-> clean_line l.
Proof.
  split; [intros <-; apply normalize_line_clean|].
  intros [->|(n & body & -> & Hs & He & Hd)]; [done|].
  rewrite (normalize_line_content _ (replicate n SPACE) body); try done.
  - by rewrite length_replicate, squeeze_fixed.
  - by apply rstrip_fixed, ends_nonspace_app.
  - by apply Forall_replicate.
Qed.

(** X6. Every line of the result is clean: empty, or plain spaces and
    then a body without whitespace at either end and without two adjacent
    spaces.  The texts the cleaner leaves as they are, are exactly those
    without a code point of the emoji class all of whose lines are clean. *)
Theorem strip_emojis_fixed_points (t : text) :
  Forall clean_line (split NL (remove_emojis_from_text t))
  /\ (remove_emojis_from_text t = t
      <-> Forall (fun c => in_emoji c = false) t
          /\ Forall clean_line (split NL t)).
Proof.
  assert (Forall clean_line (split NL (remove_emojis_from_text t))) as Hclean.
  { rewrite split_cleaned. unfold cleaned_lines.
    apply Forall_map, Forall_true. intros l. apply normalize_line_clean. }
  split; [done|]. split.
  - intros E. rewrite E in Hclean. split; [|done].
    rewrite <- E. apply cleaned_emoji_free.
  - intros [He Hl]. unfold remove_emojis_from_text.
    rewrite sub_emoji, filter_fixed.
    + rewrite <- (join_split NL t) at 2. f_equal.
      rewrite <- (list_fmap_id (split NL t)) at 2.
      apply Forall_fmap_ext. eapply Forall_impl; [exact Hl|].
      intros l Hc. by apply normalize_line_fixed_iff.
    + eapply Forall_impl; [exact He|]. intros c Hc. by rewrite Hc.
Qed.

(** ** One file, again *)

Lemma read_ok_lookup (p : path) (w : world) (t : text) :
  read_outcome p w = inr t ->
  exists wr, files w !! p = Some (File true wr (Some t)).
Proof.
  unfold read_outcome, lookup_text, raise.
  destruct (files w !! p) as [[|[] wr [t'|]]|]; intros H; simplify_eq/=.
  by exists wr.
Qed.

Lemma write_ok_lookup (p : path) (w : world) (t t' : text) :
  read_outcome p w = inr t -> write_outcome p t' w = inr tt ->
  files w !! p = Some (File true true (Some t)).
Proof.
  intros [wr E]%read_ok_lookup. unfold write_outcome, replace_text, raise.
  rewrite E. by destruct wr.
Qed.

(** The files after a call, from what reading and writing would do. *)
Lemma process_files (p : path) (dry : bool) (w : world) :
  files (process_markdown_file p dry w).1
  = match read_outcome p w with
    | inl _ => files w
    | inr t =>
        if (count_matches t =? 0)%nat then files w
        else if dry then files w
        else match write_outcome p (remove_emojis_from_text t) w with
             | inl _ => files w
             | inr _ =>
                 <[p := File true true (Some (remove_emojis_from_text t))]>
                   (files w)
             end
    end.
Proof.
  destruct (process_cases p dry w)
    as [(e & -> & ->)|[(t & -> & Hc & ->)|[(t & -> & Hc & -> & ->)
       |[(t & e & -> & Hc & -> & -> & ->)|(t & -> & Hc & -> & -> & ->)]]]];
    cbn [fst files]; try done.
  - by rewrite Hc.
  - apply Nat.eqb_neq in Hc. by rewrite Hc.
  - apply Nat.eqb_neq in Hc. by rewrite Hc.
  - apply Nat.eqb_neq in Hc. by rewrite Hc.
Qed.

Lemma process_files_dry (p : path) (w : world) :
  files (process_markdown_file p true w).1 = files w.
Proof.
  rewrite process_files. destruct (read_outcome p w) as [|t]; [done|].
  by destruct (_ =? _)%nat.
Qed.

Lemma process_files_local (p : path) (dry : bool) (w1 w2 : world) :
  files w1 !! p = files w2 !! p ->
  files (process_markdown_file p dry w1).1 !! p
  = files (process_markdown_file p dry w2).1 !! p.
Proof.
  intros E. rewrite !process_files, (read_outcome_local p w1 w2) by done.
  destruct (read_outcome p w2) as [|t]; [done|].
  destruct (_ =? _)%nat; [done|]. destruct dry; [done|].
  rewrite (write_outcome_local p _ w1 w2) by done.
  destruct (write_outcome _ _ _); [done|]. by rewrite !lookup_insert_eq.
Qed.

Lemma process_dom (p : path) (dry : bool) (w : world) (q : path) :
  is_Some (files (process_markdown_file p dry w).1 !! q)
  <-> is_Some (files w !! q).
Proof.
  rewrite process_files. destruct (read_outcome p w) as [|t] eqn:Er; [done|].
  destruct (_ =? _)%nat; [done|]. destruct dry; [done|].
  destruct (write_outcome _ _ _) as [|[]] eqn:Ew; [done|].
  pose proof (write_ok_lookup p w t _ Er Ew) as E.
  destruct (decide (q = p)) as [->|Hq].
  - rewrite lookup_insert_eq, E. split; by eexists.
  - by rewrite lookup_insert_ne.
Qed.

Lemma process_changed_count (p : path) (dry : bool) (w : world) :
  (process_markdown_file p dry w).2.1 = true ->
  (0 < (process_markdown_file p dry w).2.2)%nat.
Proof.
  destruct (process_cases p dry w)
    as [(e & _ & ->)|[(t & _ & _ & ->)|[(t & _ & Hc & _ & ->)
       |[(t & e & _ & _ & _ & _ & ->)|(t & _ & Hc & _ & _ & ->)]]]];
    cbn [fst snd]; try done; lia.
Qed.

(** X7. A call opens no path but its own.  The trace grows by the opening
    of the file for reading, then at most its opening for writing and one
    line on standard error about it; the file is opened for writing
    exactly in a live run on a readable text with a match.  No path
    appears or disappears. *)
Theorem process_opens_only_its_file (p : path) (dry : bool) (w : world) :
  (forall q, is_Some (files (process_markdown_file p dry w).1 !! q)
             <-> is_Some (files w !! q))
  /\ exists evs,
       events (process_markdown_file p dry w).1 = events w ++ OpenRead p :: evs
       /\ Forall (fun e => e = OpenWrite p \/ exists x, e = Stderr p x) evs
       /\ (OpenWrite p ∈ evs
           <-> dry = false
               /\ exists t, read_outcome p w = inr t
                            /\ count_matches t <> 0%nat).
Proof.
  split; [intros q; apply process_dom|].
  destruct (process_cases p dry w)
    as [(e & Hr & ->)|[(t & Hr & Hc & ->)|[(t & Hr & Hc & -> & ->)
       |[(t & e & Hr & Hc & -> & _ & ->)|(t & Hr & Hc & -> & _ & ->)]]]];
    cbn [fst events]; eexists; (split; [reflexivity|]).
  - split; [by repeat (constructor; [right; eauto|])|]. split.
    + intros [H|H%elem_of_nil]%elem_of_cons; done.
    + intros (_ & t & Ht & _). congruence.
  - split; [constructor|]. split.
    + by intros H%elem_of_nil.
    + intros (_ & t' & Ht & Hn). congruence.
  - split; [constructor|]. split.
    + by intros H%elem_of_nil.
    + by intros [? _].
  - split; [|split; [eauto|intros _; by left]].
    constructor; [by left|]. by repeat (constructor; [right; eauto|]).
  - split; [|split; [eauto|intros _; by left]].
    constructor; [by left|]. constructor.
Qed.

(** Reading and writing only look at the files of the world. *)
Ltac same_files :=
  first [ eassumption
        | erewrite read_outcome_local; [eassumption|reflexivity]
        | erewrite write_outcome_local; [eassumption|reflexivity] ].

Lemma process_twice (p : path) (w : world) :
  (process_markdown_file p false (process_markdown_file p false w).1).2
  = (false, 0%nat)
  /\ files (process_markdown_file p false (process_markdown_file p false w).1).1
     = files (process_markdown_file p false w).1.
Proof.
  destruct (process_cases p false w)
    as [(e & Hr & ->)|[(t & Hr & Hc & ->)|[(t & _ & _ & ? & _)
       |[(t & e & Hr & Hc & _ & Hw & ->)|(t & Hr & Hc & _ & Hw & ->)]]]];
    cbn [fst]; try done.
  - by rewrite (process_read_error p false _ e) by same_files.
  - by rewrite (process_no_emoji p false _ t) by same_files.
  - by rewrite (process_write_error p _ t e) by same_files.
  - rewrite (process_no_emoji p false _ (remove_emojis_from_text t)); [done|..].
    + unfold read_outcome, lookup_text. cbn [files].
      by rewrite lookup_insert_eq.
    + apply count_zero_iff, cleaned_emoji_free.
Qed.

(** X8. Processing a file a second time, live, after a live call: the
    second call reports no change and leaves the files as the first call
    left them, whether the first call wrote the file, found nothing to
    do, or failed. *)
Theorem second_call_changes_nothing (p : path) (w : world) :
  (process_markdown_file p false (process_markdown_file p false w).1).2
  = (false, 0%nat)
  /\ files (process_markdown_file p false (process_markdown_file p false w).1).1
     = files (process_markdown_file p false w).1
  /\ (forall t, read_outcome p w = inr t -> count_matches t <> 0%nat ->
                write_outcome p (remove_emojis_from_text t) w = inr tt ->
                read_outcome p (process_markdown_file p false w).1
                = inr (remove_emojis_from_text t)).
Proof.
  destruct (process_twice p w) as [H1 H2]. split; [done|]. split; [done|].
  intros t Hr Hc Hw. rewrite (process_written p w t) by done.
  unfold read_outcome, lookup_text. cbn [fst files].
  by rewrite lookup_insert_eq.
Qed.

Lemma second_call_changes_nothing_witness :
  read_outcome ["proj"; "README.md"]
    (process_markdown_file ["proj"; "README.md"] false (example_world true)).1
  = inr (cp "Done").
Proof.
  apply (proj2 (proj2 (second_call_changes_nothing
                         ["proj"; "README.md"] (example_world true))) party).
  - reflexivity.
  - discriminate.
  - reflexivity.
Defined.

(** ** The run, again *)

Lemma stdout_of_app (e1 e2 : list event) :
  stdout_of (e1 ++ e2) = stdout_of e1 ++ stdout_of e2.
Proof. apply omap_app. Qed.

Lemma writes_of_app (e1 e2 : list event) :
  writes_of (e1 ++ e2) = writes_of e1 ++ writes_of e2.
Proof. apply omap_app. Qed.

Lemma stdout_of_none (evs : list event) :
  Forall (fun e => forall m, e <> Stdout m) evs -> stdout_of evs = [].
Proof.
  induction 1 as [|e evs He _ IH]; [done|].
  destruct e; try exact IH. by destruct (He m).
Qed.

Lemma process_stdout (p : path) (dry : bool) (w : world) :
  stdout_of (events (process_markdown_file p dry w).1) = stdout_of (events w).
Proof.
  destruct (process_events p dry w) as (evs & -> & _ & Hs).
  rewrite stdout_of_app.
  change (stdout_of (OpenRead p :: evs)) with (stdout_of evs).
  by rewrite (stdout_of_none evs), app_nil_r by done.
Qed.

Lemma process_writes_dry (p : path) (w : world) :
  writes_of (events (process_markdown_file p true w).1) = writes_of (events w).
Proof.
  destruct (process_cases p true w)
    as [(e & _ & ->)|[(t & _ & _ & ->)|[(t & _ & _ & _ & ->)
       |[(t & e & _ & _ & ? & _)|(t & _ & _ & ? & _)]]]]; try done;
    cbn [fst events]; rewrite writes_of_app; cbn; by rewrite app_nil_r.
Qed.

Lemma process_writes (p : path) (dry : bool) (w : world) :
  exists ws, writes_of (events (process_markdown_file p dry w).1)
             = writes_of (events w) ++ ws
             /\ ws `sublist_of` [p].
Proof.
  destruct (process_cases p dry w)
    as [(e & _ & ->)|[(t & _ & _ & ->)|[(t & _ & _ & _ & ->)
       |[(t & e & _ & _ & _ & _ & ->)|(t & _ & _ & _ & _ & ->)]]]];
    cbn [fst events]; rewrite writes_of_app;
    [exists []|exists []|exists []|exists [p]|exists [p]];
    (split; [reflexivity|]); try done; apply sublist_nil_l.
Qed.

Lemma process_one_report (project_root : path) (dry verbose : bool)
    (w : world) (acc : summary) (p : path) :
  let st := process_one project_root dry verbose (w, acc) p in
  let new := option_list (file_report project_root dry w p) in
  changed_files st.2 = changed_files acc ++ new
  /\ total_changed st.2 = (total_changed acc + length new)%nat
  /\ total_emojis st.2 = (total_emojis acc + sum_list_with snd new)%nat
  /\ stdout_of (events st.1)
     = stdout_of (events w)
       ++ (if verbose then (fun x => MsgFile dry x.2 x.1) <$> new else []).
Proof.
  cbn zeta. rewrite process_one_eq. cbn zeta. unfold file_report.
  pose proof (process_stdout p dry w) as Hout.
  destruct (process_markdown_file p dry w) as [w1 [changed n]].
  cbn [fst snd] in *. destruct changed, verbose;
    cbn [fst snd changed_files total_changed total_emojis option_list
         length sum_list_with fmap list_fmap print events];
    rewrite ?stdout_of_app, ?Hout, ?app_nil_r, ?Nat.add_0_r;
    repeat split; try done; simpl; lia.
Qed.

Lemma file_report_local (project_root : path) (dry : bool) (w1 w2 : world)
    (p : path) :
  files w1 !! p = files w2 !! p ->
  file_report project_root dry w1 p = file_report project_root dry w2 p.
Proof.
  intros E. unfold file_report. by rewrite (process_result_local p dry w1 w2).
Qed.

Lemma loop_report (project_root : path) (dry verbose : bool) (w0 : world)
    (fs : list path) :
  NoDup fs ->
  forall (w : world) (acc : summary),
    (forall q, q ∈ fs -> files w !! q = files w0 !! q) ->
    let st := fold_left (process_one project_root dry verbose) fs (w, acc) in
    let new := omap (file_report project_root dry w0) fs in
    changed_files st.2 = changed_files acc ++ new
    /\ total_changed st.2 = (total_changed acc + length new)%nat
    /\ total_emojis st.2 = (total_emojis acc + sum_list_with snd new)%nat
    /\ stdout_of (events st.1)
       = stdout_of (events w)
         ++ (if verbose then (fun x => MsgFile dry x.2 x.1) <$> new else []).
Proof.
  induction 1 as [|p fs Hp Hnd IH]; intros w acc Hw; cbn zeta.
  - cbn. rewrite !app_nil_r, ?Nat.add_0_r.
    destruct verbose; by rewrite app_nil_r.
  - cbn [fold_left].
    assert (omap (file_report project_root dry w0) (p :: fs)
            = option_list (file_report project_root dry w p)
              ++ omap (file_report project_root dry w0) fs) as ->.
    { rewrite (file_report_local _ _ w w0) by (apply Hw; by left).
      cbn. by destruct (file_report project_root dry w0 p). }
    destruct (process_one_report project_root dry verbose w acc p)
      as (P1 & P2 & P3 & P4).
    assert (forall q, q ∈ fs ->
              files (process_one project_root dry verbose (w, acc) p).1 !! q
              = files w0 !! q) as Hw1.
    { intros q Hq. rewrite <- (Hw q) by by right.
      apply process_one_files. by intros ->. }
    destruct (process_one project_root dry verbose (w, acc) p) as [w1 acc1].
    cbn [fst snd] in *.
    destruct (IH w1 acc1 Hw1) as (H1 & H2 & H3 & H4).
    rewrite H1, H2, H3, H4, P1, P2, P3, P4.
    rewrite length_app, sum_list_with_app, <- !app_assoc.
    repeat split; try lia.
    destruct verbose; by rewrite ?fmap_app, ?app_nil_r.
Qed.

Lemma main_parts (argv : list string) (project_root : path) (w : world) :
  let found := (find_markdown_files project_root None w).2 in
  let st := fold_left
              (process_one project_root (flag_dry_run argv) (flag_verbose argv))
              found (loop_entry argv project_root w, Summary 0 0 []) in
  main argv project_root w
  = (World (files st.1)
           (events st.1
            ++ [Stdout (MsgSummary (length found) (total_changed st.2)
                                   (total_emojis st.2))]
            ++ (Stdout <$> consolidated (flag_verbose argv) (changed_files st.2))
            ++ [Stdout (closing_message (flag_dry_run argv)
                                        (total_changed st.2))]),
     if (0 <? total_changed st.2)%nat then 0 else 1).
Proof.
  cbn zeta. unfold main, loop_entry, consolidated, closing_message.
  change (find_markdown_files project_root None
            (print MsgScanning
               (print (MsgHeader project_root (flag_dry_run argv)) w))).2
    with (find_markdown_files project_root None w).2.
  destruct (find_markdown_files project_root None
              (print MsgScanning
                 (print (MsgHeader project_root (flag_dry_run argv)) w)))
    as [w1 found] eqn:Ef.
  assert (found = (find_markdown_files project_root None w).2) as <-.
  { change (find_markdown_files project_root None w).2
      with (find_markdown_files project_root None
              (print MsgScanning
                 (print (MsgHeader project_root (flag_dry_run argv)) w))).2.
    by rewrite Ef. }
  cbn [fst].
  destruct (fold_left _ found _) as [w2 acc2]. cbn [fst snd].
  destruct (changed_files acc2), (flag_verbose argv), (flag_dry_run argv),
    (0 <? total_changed acc2)%nat;
    cbn [negb andb fmap list_fmap app]; unfold print; cbn [events files];
    by rewrite <- ?app_assoc.
Qed.


Lemma loop_entry_stdout (argv : list string) (project_root : path) (w : world) :
  stdout_of (events (loop_entry argv project_root w))
  = stdout_of (events w)
    ++ [MsgHeader project_root (flag_dry_run argv); MsgScanning;
        MsgFound (length (find_markdown_files project_root None w).2)].
Proof.
  unfold loop_entry, find_markdown_files, print. cbn [fst events].
  rewrite !stdout_of_app. cbn. by rewrite <- ?app_assoc, ?app_nil_r.
Qed.

Lemma run_summary_report (argv : list string) (project_root : path) (w : world) :
  let cf := omap (file_report project_root (flag_dry_run argv) w)
                 (find_markdown_files project_root None w).2 in
  changed_files (run_summary argv project_root w) = cf
  /\ total_changed (run_summary argv project_root w) = length cf
  /\ total_emojis (run_summary argv project_root w) = sum_list_with snd cf.
Proof.
  cbn zeta. unfold run_summary.
  destruct (loop_report project_root (flag_dry_run argv) (flag_verbose argv)
              w _ (NoDup_found project_root w)
              (loop_entry argv project_root w) (Summary 0 0 []))
    as (H1 & H2 & H3 & _); [done|].
  by rewrite H1, H2, H3.
Qed.

Lemma file_report_positive (project_root : path) (dry : bool) (w : world)
    (fs : list path) :
  Forall (fun x => (0 < x.2)%nat) (omap (file_report project_root dry w) fs).
Proof.
  induction fs as [|p fs IH]; [constructor|]. cbn [omap list_omap].
  unfold file_report at 1.
  pose proof (process_changed_count p dry w) as H.
  destruct (process_markdown_file p dry w).2 as [[] n]; cbn [fst snd] in *;
    [|done].
  constructor; [by apply H|done].
Qed.

Lemma sum_at_least_length (l : list (path * nat)) :
  Forall (fun x => (0 < x.2)%nat) l -> (length l <= sum_list_with snd l)%nat.
Proof. induction 1 as [|x l Hx _ IH]; simpl in *; lia. Qed.

Lemma length_omap_le {A B} (f : A -> option B) (l : list A) :
  (length (omap f l) <= length l)%nat.
Proof.
  induction l as [|x l IH]; [done|].
  change (omap f (x :: l))
    with (match f x with Some y => y :: omap f l | None => omap f l end).
  destruct (f x); cbn [length]; lia.
Qed.

Lemma report_paths_sublist (project_root : path) (dry : bool) (w : world)
    (fs : list path) :
  (omap (file_report project_root dry w) fs).*1
  `sublist_of` (relative_to project_root <$> fs).
Proof.
  induction fs as [|p fs IH]; [done|].
  change (omap (file_report project_root dry w) (p :: fs))
    with (match file_report project_root dry w p with
          | Some y => y :: omap (file_report project_root dry w) fs
          | None => omap (file_report project_root dry w) fs
          end).
  unfold file_report at 1.
  destruct (process_markdown_file p dry w).2.1; cbn [fmap list_fmap fst].
  - by apply sublist_skip.
  - by apply sublist_cons.
Qed.

(** X9. The counters of a run.  The list of changed files holds paths
    relative to the root of some of the files found, in the order of
    discovery, each with a positive count; the number of changed files is
    its length and the total is the sum of its counts.  So the total is at
    least the number of changed files, which is at most the number of
    files found. *)
Theorem run_summary_is_consistent (argv : list string) (project_root : path)
    (w : world) :
  (changed_files (run_summary argv project_root w)).*1
  `sublist_of` (relative_to project_root
                  <$> (find_markdown_files project_root None w).2)
  /\ total_changed (run_summary argv project_root w)
     = length (changed_files (run_summary argv project_root w))
  /\ total_emojis (run_summary argv project_root w)
     = sum_list_with snd (changed_files (run_summary argv project_root w))
  /\ Forall (fun x => (0 < x.2)%nat)
            (changed_files (run_summary argv project_root w))
  /\ (total_changed (run_summary argv project_root w)
      <= total_emojis (run_summary argv project_root w))%nat
  /\ (total_changed (run_summary argv project_root w)
      <= length (find_markdown_files project_root None w).2)%nat.
Proof.
  destruct (run_summary_report argv project_root w) as (H1 & H2 & H3).
  rewrite H1, H2, H3. repeat split.
  - apply report_paths_sublist.
  - apply file_report_positive.
  - apply sum_at_least_length, file_report_positive.
  - apply length_omap_le.
Qed.

(** X10. The report of a run on standard output, in full: the header,
    the scanning line and the number of files found; in verbose mode one
    line for each changed file, in order; the summary; unless verbose,
    the list of changed files when there is one; and the closing line.
    The exit code is 1 exactly when the closing line says that no emoji
    was found. *)
Theorem main_report (argv : list string) (project_root : path) (w : world) :
  stdout_of (events (main argv project_root w).1)
  = stdout_of (events w)
    ++ [MsgHeader project_root (flag_dry_run argv); MsgScanning;
        MsgFound (length (find_markdown_files project_root None w).2)]
    ++ (if flag_verbose argv
        then (fun x => MsgFile (flag_dry_run argv) x.2 x.1)
               <$> changed_files (run_summary argv project_root w)
        else [])
    ++ [MsgSummary (length (find_markdown_files project_root None w).2)
                   (total_changed (run_summary argv project_root w))
                   (total_emojis (run_summary argv project_root w))]
    ++ consolidated (flag_verbose argv)
                    (changed_files (run_summary argv project_root w))
    ++ [closing_message (flag_dry_run argv)
                        (total_changed (run_summary argv project_root w))]
  /\ ((main argv project_root w).2 = 1
      <-> closing_message (flag_dry_run argv)
                          (total_changed (run_summary argv project_root w))
          = MsgNoEmojis).
Proof.
  rewrite main_parts. cbn zeta. cbn [fst snd events].
  fold (run_summary argv project_root w).
  destruct (loop_report project_root (flag_dry_run argv) (flag_verbose argv)
              w _ (NoDup_found project_root w)
              (loop_entry argv project_root w) (Summary 0 0 []))
    as (H1 & _ & _ & H4); [done|].
  fold (run_summary argv project_root w) in H1. cbn [changed_files app] in H1.
  split.
  - rewrite !stdout_of_app, H4, loop_entry_stdout, <- H1, <- !app_assoc.
    do 3 f_equal.
    assert (forall ms, stdout_of (Stdout <$> ms) = ms) as Hs
      by (induction ms as [|m ms IH]; [done|]; cbn; f_equal; apply IH).
    rewrite Hs. done.
  - unfold closing_message.
    by destruct (flag_dry_run argv), (0 <? _)%nat.
Qed.

Lemma process_one_world_files (project_root : path) (dry verbose : bool)
    (w : world) (acc : summary) (p : path) :
  files (process_one project_root dry verbose (w, acc) p).1
  = files (process_markdown_file p dry w).1.
Proof.
  rewrite process_one_eq. cbn zeta.
  destruct (process_markdown_file p dry w) as [w1 [[] n]]; cbn [fst snd];
    [|done].
  by destruct verbose.
Qed.

Lemma process_one_writes_dry (project_root : path) (verbose : bool)
    (w : world) (acc : summary) (p : path) :
  writes_of (events (process_one project_root true verbose (w, acc) p).1)
  = writes_of (events w).
Proof.
  rewrite process_one_eq. cbn zeta.
  pose proof (process_writes_dry p w) as H.
  destruct (process_markdown_file p true w) as [w1 [[] n]]; cbn [fst snd] in *;
    [|done].
  destruct verbose; [|done]. unfold print. cbn [events].
  rewrite writes_of_app, H. cbn. by rewrite app_nil_r.
Qed.

Lemma loop_files (project_root : path) (dry verbose : bool) (w0 : world)
    (fs : list path) :
  NoDup fs ->
  forall (w : world) (acc : summary),
    (forall q, q ∈ fs -> files w !! q = files w0 !! q) ->
    let st := fold_left (process_one project_root dry verbose) fs (w, acc) in
    (forall q, q ∈ fs ->
               files st.1 !! q = files (process_markdown_file q dry w0).1 !! q)
    /\ (forall q, q ∉ fs -> files st.1 !! q = files w !! q).
Proof.
  induction 1 as [|p fs Hp Hnd IH]; intros w acc Hw; cbn zeta.
  - split; [by intros q Hq%elem_of_nil|done].
  - cbn [fold_left].
    assert (forall q, q ∈ fs ->
              files (process_one project_root dry verbose (w, acc) p).1 !! q
              = files w0 !! q) as Hw1.
    { intros q Hq. rewrite <- (Hw q) by by right.
      apply process_one_files. by intros ->. }
    pose proof (process_one_world_files project_root dry verbose w acc p) as Hf.
    destruct (process_one project_root dry verbose (w, acc) p) as [w1 acc1].
    cbn [fst] in *. destruct (IH w1 acc1 Hw1) as [Hin Hout]. split.
    + intros q [->|Hq]%elem_of_cons; [|by apply Hin].
      rewrite Hout, Hf by done. apply process_files_local, Hw. by left.
    + intros q Hq. apply not_elem_of_cons in Hq as [Hqp Hq].
      rewrite Hout, Hf by done. by apply process_files_other.
Qed.

Lemma loop_writes_dry (project_root : path) (verbose : bool) (fs : list path)
    (w : world) (acc : summary) :
  writes_of (events (fold_left (process_one project_root true verbose) fs
                               (w, acc)).1)
  = writes_of (events w).
Proof.
  revert w acc. induction fs as [|p fs IH]; intros w acc; [done|].
  cbn [fold_left].
  pose proof (process_one_writes_dry project_root verbose w acc p) as H.
  destruct (process_one project_root true verbose (w, acc) p) as [w1 acc1].
  by rewrite IH.
Qed.

Lemma main_files (argv : list string) (project_root : path) (w : world) :
  (forall q, q ∈ (find_markdown_files project_root None w).2 ->
             files (main argv project_root w).1 !! q
             = files (process_markdown_file q (flag_dry_run argv) w).1 !! q)
  /\ (forall q, q ∉ (find_markdown_files project_root None w).2 ->
                files (main argv project_root w).1 !! q = files w !! q).
Proof.
  rewrite main_parts. cbn zeta. cbn [fst files].
  apply (loop_files project_root (flag_dry_run argv) (flag_verbose argv) w _
           (NoDup_found project_root w)
           (loop_entry argv project_root w) (Summary 0 0 [])).
  done.
Qed.

(** X11. A dry run of the whole program leaves every file as it is and
    opens none for writing. *)
Theorem main_dry_run_writes_nothing (argv : list string) (project_root : path)
    (w : world) :
  flag_dry_run argv = true ->
  files (main argv project_root w).1 = files w
  /\ writes_of (events (main argv project_root w).1) = writes_of (events w).
Proof.
  intros Hdry. destruct (main_files argv project_root w) as [Hin Hout]. split.
  - apply map_eq. intros q.
    destruct (decide (q ∈ (find_markdown_files project_root None w).2))
      as [Hq|Hq]; [|by apply Hout].
    by rewrite Hin, Hdry, process_files_dry.
  - rewrite main_parts. cbn zeta. cbn [fst events]. rewrite Hdry.
    rewrite !writes_of_app, loop_writes_dry.
    assert (forall ms, writes_of (Stdout <$> ms) = []) as Hs
      by (induction ms as [|m ms IH]; [done|]; exact IH).
    rewrite Hs. cbn. rewrite !app_nil_r.
    unfold loop_entry, find_markdown_files, print. cbn [fst events].
    rewrite !writes_of_app. cbn. by rewrite !app_nil_r.
Qed.

Lemma main_dry_run_writes_nothing_witness :
  files (main ["remove_emojis.py"; "-n"] ["proj"] (example_world true)).1
  = files (example_world true)
  /\ writes_of
       (events (main ["remove_emojis.py"; "-n"] ["proj"] (example_world true)).1)
     = writes_of (events (example_world true)).
Proof.
  apply (main_dry_run_writes_nothing ["remove_emojis.py"; "-n"] ["proj"]
           (example_world true)).
  reflexivity.
Defined.


Lemma process_one_writes (project_root : path) (dry verbose : bool)
    (w : world) (acc : summary) (p : path) :
  exists ws,
    writes_of (events (process_one project_root dry verbose (w, acc) p).1)
    = writes_of (events w) ++ ws
    /\ ws `sublist_of` [p].
Proof.
  rewrite process_one_eq. cbn zeta.
  destruct (process_writes p dry w) as (ws & E & Hs). exists ws.
  split; [|done].
  destruct (process_markdown_file p dry w) as [w1 [[] n]]; cbn [fst snd] in *;
    [|done].
  destruct verbose; [|done]. unfold print. cbn [events].
  rewrite writes_of_app, E. cbn. by rewrite app_nil_r.
Qed.

Lemma loop_writes (project_root : path) (dry verbose : bool) (fs : list path)
    (w : world) (acc : summary) :
  exists ws,
    writes_of (events (fold_left (process_one project_root dry verbose) fs
                                 (w, acc)).1)
    = writes_of (events w) ++ ws
    /\ ws `sublist_of` fs.
Proof.
  revert w acc. induction fs as [|p fs IH]; intros w acc.
  - exists []. cbn. by rewrite app_nil_r.
  - cbn [fold_left].
    destruct (process_one_writes project_root dry verbose w acc p)
      as (ws1 & E1 & S1).
    destruct (process_one project_root dry verbose (w, acc) p) as [w1 acc1].
    cbn [fst] in *. destruct (IH w1 acc1) as (ws2 & E2 & S2).
    exists (ws1 ++ ws2). split; [by rewrite E2, E1, app_assoc|].
    change (p :: fs) with ([p] ++ fs). by apply sublist_app.
Qed.

(** X12. The paths a run opens for writing are some of the paths it
    found, each at most once and in the order of discovery.  So it opens
    for writing no path that has a component of the default exclusion
    set, such as "node_modules" or ".git", and none whose name does not
    end in ".md"; and no path appears or disappears. *)
Theorem main_writes_only_found (argv : list string) (project_root : path)
    (w : world) :
  (exists ws,
      writes_of (events (main argv project_root w).1)
      = writes_of (events w) ++ ws
      /\ ws `sublist_of` (find_markdown_files project_root None w).2
      /\ Forall (fun p =>
                   (forall name, name ∈ DEFAULT_EXCLUDE -> name ∉ p)
                   /\ exists name, last p = Some name /\ is_md name = true)
                ws)
  /\ (forall q, is_Some (files (main argv project_root w).1 !! q)
                <-> is_Some (files w !! q)).
Proof.
  split.
  - rewrite main_parts. cbn zeta. cbn [fst events].
    destruct (loop_writes project_root (flag_dry_run argv) (flag_verbose argv)
                (find_markdown_files project_root None w).2
                (loop_entry argv project_root w) (Summary 0 0 []))
      as (ws & E & Hs).
    exists ws. split; [|split; [done|]].
    + rewrite !writes_of_app, E.
      assert (forall ms, writes_of (Stdout <$> ms) = []) as Hn
        by (induction ms as [|m ms IH]; [done|]; exact IH).
      rewrite Hn. cbn. rewrite !app_nil_r. f_equal.
      unfold loop_entry, find_markdown_files, print. cbn [fst events].
      rewrite !writes_of_app. cbn. by rewrite !app_nil_r.
    + apply Forall_forall. intros p Hp.
      assert (p ∈ (find_markdown_files project_root None w).2) as Hf
        by (by apply (sublist_subseteq _ _ Hs)).
      unfold find_markdown_files in Hf. cbn [snd default] in Hf.
      apply elem_of_select_sorted in Hf as [Hg Hex].
      apply elem_of_rglob_md in Hg as (_ & _ & _ & Hmd).
      split; [|done]. intros name He Hn. by apply (Hex name).
  - intros q.
    destruct (main_files argv project_root w) as [Hin Hout].
    destruct (decide (q ∈ (find_markdown_files project_root None w).2))
      as [Hq|Hq]; [|by rewrite Hout].
    rewrite Hin by done. apply process_dom.
Qed.

Lemma main_writes_only_found_witness :
  writes_of (events (main ["remove_emojis.py"] ["proj"] tree_world).1)
  = [ ["proj"; "a"; "b.md"]; ["proj"; "a-b"; "c.md"] ]
  /\ exists ws,
       writes_of (events (main ["remove_emojis.py"] ["proj"] tree_world).1)
       = writes_of (events tree_world) ++ ws
       /\ ws `sublist_of` (find_markdown_files ["proj"] None tree_world).2
       /\ Forall (fun p =>
                    (forall name, name ∈ DEFAULT_EXCLUDE -> name ∉ p)
                    /\ exists name, last p = Some name /\ is_md name = true)
                 ws.
Proof.
  split; [vm_compute; reflexivity|].
  apply (proj1 (main_writes_only_found ["remove_emojis.py"] ["proj"]
                  tree_world)).
Defined.

Lemma main_dom (argv : list string) (project_root : path) (w : world)
    (q : path) :
  is_Some (files (main argv project_root w).1 !! q) <-> is_Some (files w !! q).
Proof.
  destruct (main_files argv project_root w) as [Hin Hout].
  destruct (decide (q ∈ (find_markdown_files project_root None w).2))
    as [Hq|Hq]; [|by rewrite Hout].
  rewrite Hin by done. apply process_dom.
Qed.

Lemma found_same_paths (project_root : path) (w1 w2 : world) :
  (forall q, is_Some (files w1 !! q) <-> is_Some (files w2 !! q)) ->
  (find_markdown_files project_root None w1).2
  = (find_markdown_files project_root None w2).2.
Proof.
  intros H. unfold find_markdown_files. cbn [snd].
  apply select_sorted_order; [apply NoDup_rglob_md..|].
  intros p. by rewrite !elem_of_rglob_md, H.
Qed.

(** X13. Running the program live a second time, after a live run, finds
    nothing left to do: it exits with 1 and leaves every file as the first
    run left it, whatever the first run could or could not write. *)
Theorem second_live_run_finds_nothing (argv1 argv2 : list string)
    (project_root : path) (w : world) :
  flag_dry_run argv1 = false -> flag_dry_run argv2 = false ->
  (main argv2 project_root (main argv1 project_root w).1).2 = 1
  /\ files (main argv2 project_root (main argv1 project_root w).1).1
     = files (main argv1 project_root w).1.
Proof.
  intros Hd1 Hd2.
  destruct (main_files argv1 project_root w) as [Hin1 _].
  rewrite Hd1 in Hin1.
  pose proof (found_same_paths project_root (main argv1 project_root w).1 w
                (main_dom argv1 project_root w)) as Hfound.
  set (w1 := (main argv1 project_root w).1) in *.
  assert (forall p, p ∈ (find_markdown_files project_root None w1).2 ->
            (process_markdown_file p false w1).2 = (false, 0%nat)
            /\ files (process_markdown_file p false w1).1 !! p
               = files w1 !! p) as Hp.
  { intros p Hp. rewrite Hfound in Hp. specialize (Hin1 p Hp).
    destruct (process_twice p w) as [T1 T2]. split.
    - by rewrite (process_result_local p false w1 _ Hin1).
    - by rewrite (process_files_local p false w1 _ Hin1), T2. }
  split.
  - destruct (main_eq argv2 project_root w1) as [-> _].
    destruct (main_loop argv2 project_root w1) as (_ & Hc & _ & _).
    destruct (0 <? _)%nat eqn:E; [|done].
    apply Nat.ltb_lt, Hc in E as (p & Hin & Hch).
    destruct (Hp p Hin) as [Hr _]. by rewrite Hd2, Hr in Hch.
  - destruct (main_files argv2 project_root w1) as [Hin2 Hout2].
    rewrite Hd2 in Hin2. apply map_eq. intros q.
    destruct (decide (q ∈ (find_markdown_files project_root None w1).2))
      as [Hq|Hq]; [|by apply Hout2].
    rewrite Hin2 by done. by apply Hp.
Qed.

Lemma second_live_run_finds_nothing_witness :
  (main ["remove_emojis.py"; "-v"] ["proj"]
        (main ["remove_emojis.py"] ["proj"] (example_world true)).1).2 = 1
  /\ files (main ["remove_emojis.py"; "-v"] ["proj"]
                 (main ["remove_emojis.py"] ["proj"] (example_world true)).1).1
     = files (main ["remove_emojis.py"] ["proj"] (example_world true)).1.
Proof.
  apply (second_live_run_finds_nothing ["remove_emojis.py"]
           ["remove_emojis.py"; "-v"] ["proj"] (example_world true));
    reflexivity.
Defined.

(** X14. Every path found lies strictly below the root, so taking it
    relative to the root cannot fail: the relative path is not empty and
    the root followed by it is the path. *)
Theorem found_paths_are_relative (project_root : path)
    (exclude_dirs : option (gset string)) (w : world) (p : path) :
  p ∈ (find_markdown_files project_root exclude_dirs w).2 ->
  project_root ++ relative_to project_root p = p
  /\ relative_to project_root p <> [].
Proof.
  unfold find_markdown_files. cbn [snd].
  rewrite elem_of_select_sorted, elem_of_rglob_md.
  intros [(_ & [rel ->] & Hlen & _) _]. unfold relative_to.
  rewrite drop_app_length. split; [done|].
  intros ->. rewrite app_nil_r in Hlen. lia.
Qed.

Lemma found_paths_are_relative_witness :
  ["proj"] ++ relative_to ["proj"] ["proj"; "docs"; "plain.md"]
  = ["proj"; "docs"; "plain.md"]
  /\ relative_to ["proj"] ["proj"; "docs"; "plain.md"] <> [].
Proof.
  apply (found_paths_are_relative ["proj"] None (example_world true)).
  apply (bool_decide_unpack _). vm_compute. exact I.
Defined.

(** X15. The exclusion test looks at every component of the path, those
    of the root included: when the root itself has a component that is in
    the exclusion set, nothing is found. *)
Theorem excluded_root_finds_nothing (project_root : path)
    (exclude_dirs : option (gset string)) (w : world) (name : string) :
  name ∈ project_root -> name ∈ default DEFAULT_EXCLUDE exclude_dirs ->
  (find_markdown_files project_root exclude_dirs w).2 = [].
Proof.
  intros Hn He. apply elem_of_nil_inv. intros p.
  unfold find_markdown_files. cbn [snd].
  rewrite elem_of_select_sorted, elem_of_rglob_md.
  intros [(_ & [rel ->] & _) Hex]. apply (Hex name); [|done].
  apply elem_of_app. by left.
Qed.

Lemma excluded_root_finds_nothing_witness :
  (find_markdown_files ["home"; "build"; "proj"] None
     (World (<[ ["home"; "build"; "proj"; "README.md"]
                := File true true (Some party) ]> ∅) [])).2 = [].
Proof.
  apply (excluded_root_finds_nothing _ None _ "build").
  - apply (bool_decide_unpack _). vm_compute. exact I.
  - apply (bool_decide_unpack _). vm_compute. exact I.
Defined.

(** ** Line by line *)

Lemma split_filter_map (f : Z -> bool) (sep : Z) (s : text) :
  f sep = true ->
  split sep (List.filter f s) = map (List.filter f) (split sep s).
Proof.
  intros Hsep. induction s as [|c r IH]; [done|].
  cbn [List.filter split]. pose proof (split_nonempty sep r) as Hne.
  destruct (Z.eqb_spec c sep) as [->|Hc].
  - rewrite Hsep. cbn [split]. by rewrite Z.eqb_refl, IH.
  - destruct (split sep r) as [|l ls]; [done|]. cbn [map] in *.
    destruct (f c) eqn:Hf.
    + cbn [split]. apply Z.eqb_neq in Hc. rewrite Hc, IH.
      cbn [List.filter]. by rewrite Hf.
    + rewrite IH. cbn [List.filter]. by rewrite Hf.
Qed.

Lemma clean_one_line (l : text) :
  Forall (fun c => c <> NL) l ->
  remove_emojis_from_text l
  = normalize_line (List.filter (fun c => negb (in_emoji c)) l).
Proof.
  intros Hl. unfold remove_emojis_from_text. rewrite sub_emoji, split_line; [done|].
  apply List.Forall_forall. intros c [Hin _]%List.filter_In.
  by apply (proj1 (List.Forall_forall _ _) Hl).
Qed.

(** X16. The cleaner works line by line: cleaning a text is cleaning each
    of its lines on its own and joining the results with the line
    separator. *)
Theorem strip_emojis_line_by_line (t : text) :
  remove_emojis_from_text t
  = join NL (map remove_emojis_from_text (split NL t)).
Proof.
  unfold remove_emojis_from_text at 1.
  rewrite sub_emoji, split_filter_map by done.
  rewrite <- list_fmap_compose. f_equal.
  apply Forall_fmap_ext. eapply Forall_impl; [apply (split_no_sep NL t)|].
  intros l Hl. cbn. by rewrite clean_one_line.
Qed.

Lemma lstrip_all_space (l : text) :
  Forall (fun c => isspace c = true) l -> lstrip l = [].
Proof. induction 1 as [|c r Hc _ IH]; [done|]. simpl. by rewrite Hc. Qed.

Lemma normalize_line_all_space (l : text) :
  Forall (fun c => isspace c = true) l -> normalize_line l = [].
Proof.
  intros Hl. apply normalize_line_blank. unfold rstrip.
  by rewrite lstrip_all_space by by apply List.Forall_rev.
Qed.

(** X17. A line that holds nothing but emoji and whitespace becomes the
    empty line. *)
Theorem emoji_only_line_becomes_empty (l : text) :
  Forall (fun c => c <> NL) l ->
  Forall (fun c => in_emoji c = true \/ isspace c = true) l ->
  remove_emojis_from_text l = [].
Proof.
  intros Hnl Hl. rewrite clean_one_line by done.
  apply normalize_line_all_space.
  apply List.Forall_forall. intros c [Hin Hc%negb_true_iff]%List.filter_In.
  destruct (proj1 (List.Forall_forall _ _) Hl c Hin) as [He|Hs]; [congruence|done].
Qed.

Lemma emoji_only_line_becomes_empty_witness :
  remove_emojis_from_text ([9; 0x1F600; 0x200D; 32; 0x2705; 32]) = [].
Proof.
  apply emoji_only_line_becomes_empty.
  - repeat constructor; discriminate.
  - repeat (constructor; [first [by left | by right]|]). constructor.
Defined.
